(** * Marketplace analytics: the CSV ingestion step

    A shallow embedding of the ingestion code of [app.py] (the guarded block
    at the top of the script) and of [data_injection.py] (the older landing
    page), followed by the properties of the load report and of the
    destination store that the specification states about them, and by
    further properties of that code, of the routing between the pages, of the
    headings of the Home page and of the last chart of section c.

    The Python code talks to three things outside the repository: the file
    system ([os.path.exists], [os.listdir], [pd.read_csv]), the database
    ([inspect], [Inspector.get_table_names], [engine.begin], [DataFrame.to_sql])
    and Streamlit ([st.session_state], [st.secrets], [st.info] ...).  They are
    modelled by an explicit program state threaded through a state-and-exception
    monad; what the outside world decides (a lost connection, a write that the
    database refuses) is read from fault plans held in that state. *)

From stdpp Require Import gmap strings list fin_maps.
From Stdlib Require Import String Ascii.

Open Scope string_scope.
Open Scope list_scope.

(** ** Python string methods used on file names

    File names are modelled as strings of 8-bit characters; [lower] folds the
    ASCII letters, which is what [str.lower] does on them. *)

Fixpoint str_drop (n : nat) (s : string) : string :=
  match n, s with
  | S k, String _ s' => str_drop k s'
  | _, _ => s
  end.

(** [s.endswith(suffix)]: the last [len(suffix)] characters of [s] are,
    character for character, those of [suffix]. *)
Definition endswith (s suffix : string) : bool :=
  (String.length suffix <=? String.length s)%nat
  && String.eqb (str_drop (String.length s - String.length suffix) s) suffix.

(** [s.replace(old, new)] for a non-empty [old]: the string is scanned from
    the left; at every position where [old] starts, [new] is emitted and the
    scan resumes after the occurrence ([skip] counts the characters of the
    occurrence still to be passed over), so all non-overlapping occurrences
    are replaced. *)
Fixpoint replace_from (old new : string) (skip : nat) (s : string) : string :=
  match s with
  | EmptyString => EmptyString
  | String c s' =>
      match skip with
      | S k => replace_from old new k s'
      | O =>
          if String.prefix old s
          then new +:+ replace_from old new (String.length old - 1) s'
          else String c (replace_from old new 0 s')
      end
  end.

Definition str_replace (s old new : string) : string := replace_from old new 0 s.

Definition ascii_lower (c : ascii) : ascii :=
  let n := nat_of_ascii c in
  if (65 <=? n)%nat && (n <=? 90)%nat then ascii_of_nat (n + 32) else c.

Fixpoint lower (s : string) : string :=
  match s with
  | EmptyString => EmptyString
  | String c s' => String (ascii_lower c) (lower s')
  end.

(** [os.path.join(folder, filename)] for a relative [filename], as
    [os.listdir] returns them. *)
Definition os_path_join (folder filename : string) : string :=
  folder +:+ "/" +:+ filename.

(** [needle in s] on strings; used to state which names the replacement
    leaves alone. *)
Fixpoint str_contains (needle s : string) : bool :=
  String.prefix needle s
  || match s with
     | EmptyString => false
     | String _ s' => str_contains needle s'
     end.

(** ** Data model *)

(** A parsed file, as [pd.read_csv] returns it: the header row and the data
    rows.  Cells are kept as text. *)
Record DataFrame := mkDataFrame {
  columns : list string;
  rows : list (list string)
}.

(** [len(df)] *)
Definition df_len (df : DataFrame) : nat := List.length (rows df).

(** The two handlers of [app.py] tell [SQLAlchemyError] from every other
    [Exception]. *)
Inductive Exception :=
| SQLAlchemyError (msg : string)
| OtherException (msg : string).

(** What the page shows.  The first three are the per-file lines of the load
    report:
    - [Loaded]: [st.success(f"{table_name} loaded with {len(df)} rows.")]
    - [Skipped]: [st.info(f"Table `{table_name}` already exists. Skipping load.")]
    - [Failed]: [st.error(f"Failed to load {filename}: {e}")]
    and the others are
    [st.error(f"Data directory not found: {data_folder}")],
    [st.error(f"Database connection error: {db_err}")],
    [st.error(f"Unexpected error: {e}")] and
    [st.warning("No CSV files found in data directory.")]. *)
Inductive Message :=
| Loaded (table_name : string) (row_count : nat)
| Skipped (table_name : string)
| Failed (filename : string) (e : Exception)
| DataDirNotFound (data_folder : string)
| DatabaseConnectionError (e : Exception)
| UnexpectedError (e : Exception)
| NoCsvFilesFound.

Definition is_file_outcome (m : Message) : bool :=
  match m with
  | Loaded _ _ | Skipped _ | Failed _ _ => true
  | _ => false
  end.

(** The load report: the per-file lines, in the order they were shown. *)
Definition load_report (shown : list Message) : list Message :=
  List.filter is_file_outcome shown.

(** The statements [to_sql(..., if_exists="replace")] sends. *)
Inductive Stmt :=
| DropTable (name : string)
| CreateTable (name : string) (cols : list string)
| InsertRow (name : string) (row : list string).

(** Interactions with the outside world, in the order they happen. *)
Inductive Event :=
| EvCatalogQuery
| EvReadCsv (path : string)
| EvBegin
| EvStmt (st : Stmt)
| EvCommit
| EvRollback.

(** [st.session_state]: the three keys the ingestion block uses. *)
Record Session := mkSession {
  ss_data_loaded : option bool;
  ss_files_loaded : option (list string);
  ss_engine : option string
}.

Definition new_session : Session := mkSession None None None.

(** The file system as the scripts see it: [data_dir] is [None] when the
    folder ["data"] does not exist and otherwise what [os.listdir] returns, in
    its order; [csv_content path] is what [pd.read_csv(path, encoding="latin1")]
    returns or raises. *)
Record FileSystem := mkFileSystem {
  data_dir : option (list string);
  csv_content : string -> Exception + DataFrame
}.

(** What [st.secrets] holds and which connection strings [create_engine]
    refuses. *)
Record Env := mkEnv {
  secrets : gmap string string;
  engine_error : string -> option Exception
}.

(** The program state.
    - [store]: the committed tables of the database;
    - [tx]: the working copy of the open transaction, if any;
    - [info_cache]: the memo of the [Inspector] bound to [inspector]
      (SQLAlchemy's [Inspector] keeps each reflection result in its
      [info_cache]: the first [get_table_names()] queries the catalog, later
      calls on the same object return the list kept from the first);
    - [conn_faults]: for each coming connection check-out of the inspector,
      whether it raises;
    - [write_faults]: for each coming write transaction, whether the database
      raises in it, and after how many statements;
    - [cache_data]: the memo of [@st.cache_data] in [data_injection.py];
    - [events], [shown]: the interactions so far and the page so far. *)
Record State := mkState {
  store : gmap string DataFrame;
  tx : option (gmap string DataFrame);
  info_cache : option (list string);
  conn_faults : list (option Exception);
  write_faults : list (option (nat * Exception));
  cache_data : gmap (string * string) Message;
  events : list Event;
  shown : list Message;
  session_state : Session
}.

Definition set_store v (s : State) : State :=
  mkState v (tx s) (info_cache s) (conn_faults s) (write_faults s)
          (cache_data s) (events s) (shown s) (session_state s).
Definition set_tx v (s : State) : State :=
  mkState (store s) v (info_cache s) (conn_faults s) (write_faults s)
          (cache_data s) (events s) (shown s) (session_state s).
Definition set_info_cache v (s : State) : State :=
  mkState (store s) (tx s) v (conn_faults s) (write_faults s)
          (cache_data s) (events s) (shown s) (session_state s).
Definition set_conn_faults v (s : State) : State :=
  mkState (store s) (tx s) (info_cache s) v (write_faults s)
          (cache_data s) (events s) (shown s) (session_state s).
Definition set_write_faults v (s : State) : State :=
  mkState (store s) (tx s) (info_cache s) (conn_faults s) v
          (cache_data s) (events s) (shown s) (session_state s).
Definition set_cache_data v (s : State) : State :=
  mkState (store s) (tx s) (info_cache s) (conn_faults s) (write_faults s)
          v (events s) (shown s) (session_state s).
Definition set_session v (s : State) : State :=
  mkState (store s) (tx s) (info_cache s) (conn_faults s) (write_faults s)
          (cache_data s) (events s) (shown s) v.
Definition log (evs : list Event) (s : State) : State :=
  mkState (store s) (tx s) (info_cache s) (conn_faults s) (write_faults s)
          (cache_data s) (events s ++ evs) (shown s) (session_state s).
Definition show (m : Message) (s : State) : State :=
  mkState (store s) (tx s) (info_cache s) (conn_faults s) (write_faults s)
          (cache_data s) (events s) (shown s ++ [m]) (session_state s).

(** A process that has just started: nothing shown, nothing done, an empty
    session, no transaction open. *)
Definition initial_state (db : gmap string DataFrame)
    (cf : list (option Exception)) (wf : list (option (nat * Exception))) : State :=
  mkState db None None cf wf ∅ [] [] new_session.

(** ** The monad of the scripts: state and exceptions *)

Inductive Result (A : Type) :=
| Ok (a : A)
| Raise (e : Exception).
Arguments Ok {A} a.
Arguments Raise {A} e.

Definition M (A : Type) : Type := State -> Result A * State.

Definition ret {A} (a : A) : M A := fun s => (Ok a, s).

Definition bind {A B} (m : M A) (k : A -> M B) : M B :=
  fun s => match m s with
           | (Ok a, s') => k a s'
           | (Raise e, s') => (Raise e, s')
           end.

Definition raise {A} (e : Exception) : M A := fun s => (Raise e, s).

(** [try: body / except Exception as e: handler e].  What [body] did to the
    state before it raised stays done. *)
Definition try_except {A} (body : M A) (handler : Exception -> M A) : M A :=
  fun s => match body s with
           | (Ok a, s') => (Ok a, s')
           | (Raise e, s') => handler e s'
           end.

Definition modify (f : State -> State) : M unit := fun s => (Ok tt, f s).

Notation "'let*' x ':=' m 'in' k" := (bind m (fun x => k))
  (at level 61, x name, m at level 100, k at level 200).

(** ** The outside world *)

Definition st_show (m : Message) : M unit := modify (show m).

(** The inspector takes a connection from the engine for each call; the
    coming entry of [conn_faults] says whether that raises. *)
Definition checkout : M unit :=
  fun s => match head (conn_faults s) with
           | Some (Some e) => (Raise e, set_conn_faults (tail (conn_faults s)) s)
           | _ => (Ok tt, set_conn_faults (tail (conn_faults s)) s)
           end.

(** [inspect(engine)]: connects once and returns a new [Inspector], its memo
    empty. *)
Definition inspect : M unit :=
  let* _ := checkout in modify (set_info_cache None).

(** The names of the tables of the database. *)
Definition table_names (db : gmap string DataFrame) : list string :=
  elements (dom db).

(** [inspector.get_table_names()] *)
Definition get_table_names : M (list string) :=
  let* _ := checkout in
  fun s => match info_cache s with
           | Some names => (Ok names, s)
           | None =>
               let names := table_names (store s) in
               (Ok names, log [EvCatalogQuery] (set_info_cache (Some names) s))
           end.

(** [pd.read_csv(path, encoding="latin1")] *)
Definition pd_read_csv (fs : FileSystem) (path : string) : M DataFrame :=
  fun s => match csv_content fs path with
           | inl e => (Raise e, log [EvReadCsv path] s)
           | inr df => (Ok df, log [EvReadCsv path] s)
           end.

Definition exec_stmt (db : gmap string DataFrame) (st : Stmt) : gmap string DataFrame :=
  match st with
  | DropTable n => delete n db
  | CreateTable n cols => <[n := mkDataFrame cols []]> db
  | InsertRow n r => alter (fun t => mkDataFrame (columns t) (rows t ++ [r])) n db
  end.

(** The table is dropped if it is there, created from the header and filled
    row by row. *)
Definition to_sql_stmts (present : bool) (table_name : string) (df : DataFrame) : list Stmt :=
  (if present then [DropTable table_name] else [])
  ++ CreateTable table_name (columns df) :: map (InsertRow table_name) (rows df).

(** [df.to_sql(table_name, conn, if_exists="replace", index=False)] on the
    connection of the open transaction.  With the coming entry of
    [write_faults] at [Some (k, e)] the database raises [e] once [k]
    statements went through (at the latest when all of them did): the working
    copy is then left partly written. *)
Definition to_sql (table_name : string) (df : DataFrame) : M unit :=
  fun s =>
    match tx s with
    | None => (Raise (SQLAlchemyError "This connection is closed"), s)
    | Some w =>
        let stmts := to_sql_stmts (bool_decide (is_Some (w !! table_name))) table_name df in
        let s' := set_write_faults (tail (write_faults s)) s in
        match head (write_faults s) with
        | Some (Some (k, e)) =>
            let done := take k stmts in
            (Raise e, log (EvStmt <$> done) (set_tx (Some (foldl exec_stmt w done)) s'))
        | _ =>
            (Ok tt, log (EvStmt <$> stmts) (set_tx (Some (foldl exec_stmt w stmts)) s'))
        end
    end.

(** [with engine.begin() as conn: body]: the body works on a copy of the
    committed tables; leaving the block normally commits the copy, leaving it
    by an exception drops the copy and lets the exception through. *)
Definition engine_begin {A} (body : M A) : M A :=
  fun s =>
    match body (log [EvBegin] (set_tx (Some (store s)) s)) with
    | (Ok a, s') =>
        (Ok a, log [EvCommit] (set_tx None (set_store (default (store s') (tx s')) s')))
    | (Raise e, s') => (Raise e, log [EvRollback] (set_tx None s'))
    end.

(** [df.to_sql(table_name, engine, ...)] with the [Engine] itself and no
    [with engine.begin()] around it: pandas takes a connection of its own,
    and what the statements did is committed when it lets go of the
    connection, also when one of them raised. *)
Definition engine_autocommit {A} (body : M A) : M A :=
  fun s =>
    match body (log [EvBegin] (set_tx (Some (store s)) s)) with
    | (r, s') =>
        (r, log [EvCommit] (set_tx None (set_store (default (store s') (tx s')) s')))
    end.

(** [st.secrets[key]] *)
Definition st_secrets (env : Env) (key : string) : M string :=
  match secrets env !! key with
  | Some v => ret v
  | None => raise (OtherException key)
  end.

(** [create_engine(db_url, ...)]: no connection is made yet. *)
Definition create_engine (env : Env) (db_url : string) : M string :=
  match engine_error env db_url with
  | Some e => raise e
  | None => ret db_url
  end.

Definition os_path_exists (fs : FileSystem) : bool :=
  match data_dir fs with Some _ => true | None => false end.

Definition os_listdir (fs : FileSystem) : list string :=
  default [] (data_dir fs).

Definition data_folder : string := "data".

(** The candidate filter and the name of the destination table, as both
    scripts compute them:
    [filename.endswith(".csv")] and [filename.replace(".csv", "").lower()]. *)
Definition is_candidate (filename : string) : bool := endswith filename ".csv".

Definition derive_table_name (filename : string) : string :=
  lower (str_replace filename ".csv" "").

(** ** app.py *)

(** The body of [for filename in os.listdir(data_folder)]; [files_loaded] is
    the list of that name. *)
Definition process_file (fs : FileSystem) (filename : string)
    (files_loaded : list string) : M (list string) :=
  if endswith filename ".csv" then
    let filepath := os_path_join data_folder filename in
    let table_name := lower (str_replace filename ".csv" "") in
    let* names := get_table_names in
    if bool_decide (table_name ∈ names) then
      let* _ := st_show (Skipped table_name) in
      ret files_loaded
    else
      try_except
        (let* df := pd_read_csv fs filepath in
         let* _ := engine_begin (to_sql table_name df) in
         let* _ := st_show (Loaded table_name (df_len df)) in
         ret (files_loaded ++ [table_name]))
        (fun e =>
           let* _ := st_show (Failed filename e) in
           ret files_loaded)
  else ret files_loaded.

Fixpoint for_each_file (fs : FileSystem) (listing : list string)
    (files_loaded : list string) : M (list string) :=
  match listing with
  | [] => ret files_loaded
  | filename :: rest =>
      let* files_loaded' := process_file fs filename files_loaded in
      for_each_file fs rest files_loaded'
  end.

(** Lines 25 to 51: the directory check, the loop and the two session
    keys. *)
Definition ingest_all (fs : FileSystem) : M unit :=
  if negb (os_path_exists fs) then
    st_show (DataDirNotFound data_folder)
  else
    let* files_loaded := for_each_file fs (os_listdir fs) [] in
    modify (fun s => set_session
      (mkSession (Some true) (Some files_loaded) (ss_engine (session_state s))) s).

(** Lines 18 to 51: the body of the outer [try]. *)
Definition ingestion_body (env : Env) (fs : FileSystem) : M unit :=
  let* db_url := st_secrets env "DB_URL" in
  let* engine := create_engine env db_url in
  let* _ := modify (fun s => set_session
      (mkSession (ss_data_loaded (session_state s)) (ss_files_loaded (session_state s))
                 (Some engine)) s) in
  let* _ := inspect in
  ingest_all fs.

(** Lines 17 to 56: the [try] with its two handlers. *)
Definition ingestion_block (env : Env) (fs : FileSystem) : M unit :=
  try_except (ingestion_body env fs)
    (fun e =>
       match e with
       | SQLAlchemyError _ => st_show (DatabaseConnectionError e)
       | OtherException _ => st_show (UnexpectedError e)
       end).

(** Lines 16 to 59: [if "data_loaded" not in st.session_state: ... else:
    engine = st.session_state["engine"]]. *)
Definition app_script (env : Env) (fs : FileSystem) : M unit :=
  fun s =>
    match ss_data_loaded (session_state s) with
    | None => ingestion_block env fs s
    | Some _ => (Ok tt, s)
    end.

(** A run of the ingestion against the tables [db] in a process that has
    just started: a new inspector, then lines 25 to 51. *)
Definition run_ingest (fs : FileSystem) : M unit :=
  let* _ := inspect in ingest_all fs.

(** ** data_injection.py *)

Module DataInjection.

(** The body of [load_csv_to_db].  [to_sql] is given the [Engine], not a
    connection in a transaction of the script: nothing is rolled back when
    it raises. *)
Definition load_csv_to_db_body (fs : FileSystem) (file table_name : string) : M Message :=
  let* df := pd_read_csv fs file in
  let* _ := engine_autocommit (to_sql table_name df) in
  ret (Loaded table_name (df_len df)).

(** [@st.cache_data]: a call with arguments seen before returns the value
    kept from that call and does not run the body. *)
Definition load_csv_to_db (fs : FileSystem) (file table_name : string) : M Message :=
  fun s =>
    match cache_data s !! (file, table_name) with
    | Some result => (Ok result, s)
    | None =>
        match load_csv_to_db_body fs file table_name s with
        | (Ok result, s') =>
            (Ok result, set_cache_data (<[(file, table_name) := result]> (cache_data s')) s')
        | (Raise e, s') => (Raise e, s')
        end
    end.

Definition process_file (fs : FileSystem) (filename : string)
    (files_loaded : list string) : M (list string) :=
  if endswith filename ".csv" then
    let filepath := os_path_join data_folder filename in
    let table_name := lower (str_replace filename ".csv" "") in
    let* result := load_csv_to_db fs filepath table_name in
    let* _ := st_show result in
    ret (files_loaded ++ [table_name])
  else ret files_loaded.

Fixpoint for_each_file (fs : FileSystem) (listing : list string)
    (files_loaded : list string) : M (list string) :=
  match listing with
  | [] => ret files_loaded
  | filename :: rest =>
      let* files_loaded' := process_file fs filename files_loaded in
      for_each_file fs rest files_loaded'
  end.

(** Lines 26 to 39.  No exception is caught in this script. *)
Definition main (fs : FileSystem) : M unit :=
  if negb (os_path_exists fs) then
    st_show (DataDirNotFound data_folder)
  else
    let* files_loaded := for_each_file fs (os_listdir fs) [] in
    match files_loaded with
    | [] => st_show NoCsvFilesFound
    | _ => ret tt
    end.

End DataInjection.

(** ** Vocabulary of the properties *)

Definition candidates (listing : list string) : list string :=
  List.filter is_candidate listing.

(** The inspector keeps its connection for the rest of the run. *)
Definition conn_ok (s : State) : Prop :=
  Forall (fun f => f = None) (conn_faults s).

(** The database raises in none of the coming write transactions. *)
Definition write_ok (s : State) : Prop :=
  Forall (fun f => f = None) (write_faults s).

(** The list of names the membership test of the loop sees from state [s]
    on: the inspector's memo once it is filled, and before that what the
    first query will put there. *)
Definition snapshot (s : State) : list string :=
  default (table_names (store s)) (info_cache s).

(** The state a successful [get_table_names()] leaves. *)
Definition after_names (s : State) : State :=
  let s1 := set_conn_faults (tail (conn_faults s)) s in
  match info_cache s with
  | Some _ => s1
  | None => log [EvCatalogQuery] (set_info_cache (Some (table_names (store s))) s1)
  end.

(** The state a committed, respectively rolled back, write transaction
    leaves. *)
Definition committed (table_name : string) (df : DataFrame) (s : State) : State :=
  let stmts := to_sql_stmts (bool_decide (is_Some (store s !! table_name))) table_name df in
  mkState (<[table_name := df]> (store s)) None (info_cache s) (conn_faults s)
          (tail (write_faults s)) (cache_data s)
          (events s ++ [EvBegin] ++ (EvStmt <$> stmts) ++ [EvCommit])
          (shown s) (session_state s).

Definition rolled_back (table_name : string) (df : DataFrame) (k : nat) (s : State) : State :=
  let stmts := to_sql_stmts (bool_decide (is_Some (store s !! table_name))) table_name df in
  mkState (store s) None (info_cache s) (conn_faults s)
          (tail (write_faults s)) (cache_data s)
          (events s ++ [EvBegin] ++ (EvStmt <$> take k stmts) ++ [EvRollback])
          (shown s) (session_state s).

(** The state a write of [data_injection.py] leaves when the database raised
    after [k] statements: what went through is committed. *)
Definition partly_written (table_name : string) (df : DataFrame) (k : nat) (s : State) : State :=
  let stmts := to_sql_stmts (bool_decide (is_Some (store s !! table_name))) table_name df in
  mkState (foldl exec_stmt (store s) (take k stmts)) None (info_cache s) (conn_faults s)
          (tail (write_faults s)) (cache_data s)
          (events s ++ [EvBegin] ++ (EvStmt <$> take k stmts) ++ [EvCommit])
          (shown s) (session_state s).

(** What the line of the report for candidate [filename] may be, the
    membership test seeing [names]. *)
Definition entry_ok (fs : FileSystem) (names : list string)
    (filename : string) (m : Message) : Prop :=
  if bool_decide (derive_table_name filename ∈ names) then
    m = Skipped (derive_table_name filename)
  else
    match csv_content fs (os_path_join data_folder filename) with
    | inl e => m = Failed filename e
    | inr df =>
        m = Loaded (derive_table_name filename) (df_len df) ∨ ∃ e, m = Failed filename e
    end.

(** The state a successful [inspect(engine)] leaves. *)
Definition after_inspect (s : State) : State :=
  set_info_cache None (set_conn_faults (tail (conn_faults s)) s).

Definition stmt_table (st : Stmt) : string :=
  match st with
  | DropTable n | CreateTable n _ | InsertRow n _ => n
  end.

(** The events handling [filename] may cause besides the catalog query: the
    read of its path, and a transaction on the table it derives. *)
Definition event_of_file (filename : string) (ev : Event) : Prop :=
  match ev with
  | EvCatalogQuery => False
  | EvReadCsv path => path = os_path_join data_folder filename
  | EvStmt st => stmt_table st = derive_table_name filename
  | EvBegin | EvCommit | EvRollback => True
  end.

(** The catalog query a candidate causes in state [s]: one if the memo of
    the inspector is still empty. *)
Definition catalog_events (filename : string) (s : State) : list Event :=
  if is_candidate filename
  then match info_cache s with Some _ => [] | None => [EvCatalogQuery] end
  else [].

(** The loop body as a step relation, for a run in which the inspector keeps
    its connection: [step fs s filename s' lines] says that handling
    [filename] in state [s] leaves [s'] and adds [lines] to the page. *)
Inductive step (fs : FileSystem) (s : State) (filename : string) :
    State -> list Message -> Prop :=
| step_ignore :
    is_candidate filename = false ->
    step fs s filename s []
| step_skip :
    is_candidate filename = true ->
    derive_table_name filename ∈ snapshot s ->
    step fs s filename
      (show (Skipped (derive_table_name filename)) (after_names s))
      [Skipped (derive_table_name filename)]
| step_parse_error e :
    is_candidate filename = true ->
    derive_table_name filename ∉ snapshot s ->
    csv_content fs (os_path_join data_folder filename) = inl e ->
    step fs s filename
      (show (Failed filename e)
         (log [EvReadCsv (os_path_join data_folder filename)] (after_names s)))
      [Failed filename e]
| step_write_error df k e :
    is_candidate filename = true ->
    derive_table_name filename ∉ snapshot s ->
    csv_content fs (os_path_join data_folder filename) = inr df ->
    head (write_faults s) = Some (Some (k, e)) ->
    step fs s filename
      (show (Failed filename e)
         (rolled_back (derive_table_name filename) df k
            (log [EvReadCsv (os_path_join data_folder filename)] (after_names s))))
      [Failed filename e]
| step_load df :
    is_candidate filename = true ->
    derive_table_name filename ∉ snapshot s ->
    csv_content fs (os_path_join data_folder filename) = inr df ->
    (head (write_faults s) = None ∨ head (write_faults s) = Some None) ->
    step fs s filename
      (show (Loaded (derive_table_name filename) (df_len df))
         (committed (derive_table_name filename) df
            (log [EvReadCsv (os_path_join data_folder filename)] (after_names s))))
      [Loaded (derive_table_name filename) (df_len df)].

Inductive steps (fs : FileSystem) : State -> list string -> State -> list Message -> Prop :=
| steps_nil s : steps fs s [] s []
| steps_cons s filename s1 lines1 rest s2 lines2 :
    step fs s filename s1 lines1 ->
    steps fs s1 rest s2 lines2 ->
    steps fs s (filename :: rest) s2 (lines1 ++ lines2).

(** The names [files_loaded] gains from the lines of a run. *)
Definition loaded_names (lines : list Message) : list string :=
  omap (fun m => match m with Loaded n _ => Some n | _ => None end) lines.


(** The line of the report for candidate [filename] when the database
    refuses no write: it is decided by the snapshot and the parser alone. *)
Definition entry_no_fault (fs : FileSystem) (names : list string)
    (filename : string) (m : Message) : Prop :=
  if bool_decide (derive_table_name filename ∈ names) then
    m = Skipped (derive_table_name filename)
  else
    match csv_content fs (os_path_join data_folder filename) with
    | inl e => m = Failed filename e
    | inr df => m = Loaded (derive_table_name filename) (df_len df)
    end.

Definition is_catalog_query (ev : Event) : bool :=
  match ev with EvCatalogQuery => true | _ => false end.

(** The derivation in the words of the specification: the extension, the
    last four characters of a name that ends in [".csv"] in whatever case, is
    stripped and the rest is lower-cased. *)
Fixpoint str_take (n : nat) (s : string) : string :=
  match n, s with
  | S k, String c s' => String c (str_take k s')
  | _, _ => EmptyString
  end.

Definition strip_extension (filename : string) : string :=
  if endswith (lower filename) ".csv"
  then str_take (String.length filename - 4) filename
  else filename.

Definition spec_table_name (filename : string) : string :=
  lower (strip_extension filename).

(** ** A small directory, for the examples *)

Definition df_orders : DataFrame :=
  mkDataFrame ["id"; "total"] [["1"; "10"]; ["2"; "20"]; ["3"; "30"]].

Definition df_orders_new : DataFrame :=
  mkDataFrame ["id"] [["9"]].

(** Two files that derive the table name ["orders"], a file that is no
    candidate and a file the parser refuses. *)
Definition ex_fs : FileSystem :=
  mkFileSystem (Some ["orders.csv"; "notes.txt"; "Orders.csv"; "broken.csv"])
    (fun path =>
       if String.eqb path "data/orders.csv" then inr df_orders
       else if String.eqb path "data/Orders.csv" then inr df_orders_new
       else inl (OtherException "ParserError")).

Definition ex_no_dir : FileSystem :=
  mkFileSystem None (fun _ => inl (OtherException "FileNotFoundError")).

Definition ex_env : Env :=
  mkEnv {["DB_URL" := "postgresql://host/db"]} (fun _ => None).

Definition ex_interrupted : Exception := SQLAlchemyError "server closed the connection".

(** ** app.py: navigation (lines 61 to 68 and 665 to 675) *)

(** The options of the sidebar radio. *)
Definition sections : list string := ["Home"; "a"; "b"; "c"; "d"; "e"; "Insights"].

(** The page functions. *)
Inductive Page :=
| show_home
| show_section_a
| show_section_b
| show_section_c
| show_section_d
| show_section_e
| show_insights.

Definition page_map : gmap string Page :=
  <["Home" := show_home]> (<["a" := show_section_a]> (<["b" := show_section_b]>
  (<["c" := show_section_c]> (<["d" := show_section_d]> (<["e" := show_section_e]>
  (<["Insights" := show_insights]> ∅)))))).

(** [l.index(x)]: the first position of [x], or [ValueError]. *)
Fixpoint list_index (x : string) (l : list string) : option nat :=
  match l with
  | [] => None
  | y :: rest => if String.eqb y x then Some 0%nat else S <$> list_index x rest
  end.

(** What the script does with the value [section] of the radio: it stores
    its position under ["section_index"] and calls [page_map[section]]. *)
Definition route (section : string) : Exception + (nat * Page) :=
  match list_index section sections with
  | None => inl (OtherException "ValueError")
  | Some i =>
      match page_map !! section with
      | None => inl (OtherException "KeyError")
      | Some page => inr (i, page)
      end
  end.

(** The option the radio starts from: [options[index]] with
    [index = st.session_state.get("section_index", 0)]. *)
Definition radio_default (section_index : option nat) : option string :=
  sections !! default 0%nat section_index.

(** ** app.py: the Home page (lines 101 to 112) *)

(** [s.rfind(c)] for a character: the last position of [c], or [-1]. *)
Fixpoint rfind_from (c : ascii) (i : Z) (acc : Z) (s : string) : Z :=
  match s with
  | EmptyString => acc
  | String d s' => rfind_from c (i + 1) (if Ascii.eqb d c then i else acc) s'
  end.

Definition rfind (c : ascii) (s : string) : Z := rfind_from c 0 (-1) s.

(** The loop of [genericpath._splitext] over the [k] characters that start
    [s]: is one of them not a dot? *)
Fixpoint has_non_dot (k : nat) (s : string) : bool :=
  match k, s with
  | S k', String d s' => if Ascii.eqb d "." then has_non_dot k' s' else true
  | _, _ => false
  end.

(** [os.path.splitext(p)] of [posixpath]: the extension starts at the last
    dot of the last path component, leading dots of the component not
    counting. *)
Definition splitext (p : string) : string * string :=
  let sepIndex := rfind "/" p in
  let dotIndex := rfind "." p in
  if (sepIndex <? dotIndex)%Z then
    let filenameIndex := (sepIndex + 1)%Z in
    if has_non_dot (Z.to_nat (dotIndex - filenameIndex))
                   (str_drop (Z.to_nat filenameIndex) p)
    then (str_take (Z.to_nat dotIndex) p, str_drop (Z.to_nat dotIndex) p)
    else (p, EmptyString)
  else (p, EmptyString).

(** The heading the Home page writes for a file:
    [os.path.splitext(filename)[0]]. *)
Definition home_heading (filename : string) : string := (splitext filename).1.

(** ** app.py: the last chart of section c (lines 387 and 447 to 459) *)

(** A row of [df_c], as far as the chart reads it: [last_sale_ts] is [None]
    for SQL [NULL]. *)
Record SellerRow := mkSellerRow {
  seller : string;
  last_sale_ts : option Z;
  last_action : string
}.

(** [df_c['has_sold'] = df_c['last_sale_ts'].notna()] *)
Definition has_sold (r : SellerRow) : bool :=
  match last_sale_ts r with Some _ => true | None => false end.

(** The three branches on the value of the radio. *)
Definition filter_by_sale (sale_filter : string) (df_c : list SellerRow) : list SellerRow :=
  if String.eqb sale_filter "Sold At Least Once" then
    List.filter (fun r => Bool.eqb (has_sold r) true) df_c
  else if String.eqb sale_filter "No Sales" then
    List.filter (fun r => Bool.eqb (has_sold r) false) df_c
  else df_c.

(** [df['last_action'].value_counts()], as the map from each action to the
    number of rows that have it. *)
Fixpoint value_counts (df : list SellerRow) : gmap string nat :=
  match df with
  | [] => ∅
  | r :: rest =>
      let counts := value_counts rest in
      <[last_action r := S (default 0%nat (counts !! last_action r))]> counts
  end.

(** The test of the Home page that decides whether the distinct values of
    the event columns are shown: [filename.lower() == "clicks.csv"]
    (line 112). *)
Definition is_clicks_file (filename : string) : bool :=
  String.eqb (lower filename) "clicks.csv".

(** A line of the report is about the file [filename]: it names the file,
    or the table the file derives. *)
Definition line_about (filename : string) (m : Message) : Prop :=
  m = Skipped (derive_table_name filename)
  ∨ (∃ k, m = Loaded (derive_table_name filename) k)
  ∨ (∃ e, m = Failed filename e).

(** * Properties *)

(** ** File names *)

Lemma str_app_cons (c : ascii) (a b : string) :
  String c a +:+ b = String c (a +:+ b).
Proof. reflexivity. Qed.

Lemma str_app_nil (b : string) : EmptyString +:+ b = b.
Proof. reflexivity. Qed.

Lemma str_drop_app (b suffix : string) :
  str_drop (String.length b) (b +:+ suffix) = suffix.
Proof.
  induction b as [|c b IH]; [rewrite str_app_nil; by destruct suffix |].
  rewrite str_app_cons. exact IH.
Qed.

Lemma str_length_app (a b : string) :
  String.length (a +:+ b) = String.length a + String.length b.
Proof.
  induction a as [|c a IH]; [done |].
  rewrite str_app_cons. simpl. by rewrite IH.
Qed.

Lemma str_drop_split (n : nat) (s : string) :
  ∃ b, s = b +:+ str_drop n s.
Proof.
  revert s. induction n as [|n IH]; intros s.
  - exists EmptyString. by destruct s.
  - destruct s as [|c s]; [by exists EmptyString |].
    destruct (IH s) as [b Hb]. exists (String c b).
    rewrite str_app_cons. simpl. f_equal. exact Hb.
Qed.

Lemma endswith_spec (s suffix : string) :
  endswith s suffix = true ↔ ∃ b, s = b +:+ suffix.
Proof.
  unfold endswith. split.
  - intros [_ Heq%String.eqb_eq]%andb_true_iff.
    destruct (str_drop_split (String.length s - String.length suffix) s) as [b Hb].
    exists b. by rewrite Heq in Hb.
  - intros [b ->]. rewrite str_length_app. apply andb_true_iff. split.
    + apply Nat.leb_le. lia.
    + replace (String.length b + String.length suffix - String.length suffix)
        with (String.length b) by lia.
      rewrite str_drop_app. apply String.eqb_refl.
Qed.

Lemma str_app_inv_suffix (a b x y : string) :
  a +:+ x = b +:+ y → String.length x = String.length y → x = y.
Proof.
  revert b. induction a as [|c a IH]; intros b Heq Hlen.
  - destruct b as [|d b]; [done |]. rewrite str_app_nil in Heq.
    apply (f_equal String.length) in Heq.
    rewrite str_length_app in Heq. simpl in Heq. lia.
  - destruct b as [|d b].
    + rewrite str_app_nil in Heq. apply (f_equal String.length) in Heq.
      rewrite str_length_app in Heq. simpl in Heq. lia.
    + rewrite !str_app_cons in Heq. injection Heq as _ Heq. by eapply IH.
Qed.

(** An occurrence of [".csv"] that starts inside [x +:+ ".csv"] before the
    final one lies within [x]: its dot cannot fall on a letter. *)
Lemma prefix_csv_app (x : string) :
  x ≠ EmptyString →
  String.prefix ".csv" (x +:+ ".csv") = String.prefix ".csv" x.
Proof.
  intros Hx.
  destruct x as [|c1 [|c2 [|c3 [|c4 r]]]]; [done | | | |];
    rewrite ?str_app_cons, ?str_app_nil; cbn [String.prefix];
    repeat (destruct (ascii_dec _ _); try done); by destruct r.
Qed.

Lemma replace_csv_suffix (b : string) :
  str_contains ".csv" b = false →
  str_replace (b +:+ ".csv") ".csv" "" = b.
Proof.
  unfold str_replace. induction b as [|c b IH]; intros Hb; [done |].
  change (str_contains ".csv" (String c b))
    with (String.prefix ".csv" (String c b) || str_contains ".csv" b) in Hb.
  apply orb_false_iff in Hb as [Hp Hc].
  rewrite (str_app_cons c b). cbn [replace_from].
  rewrite <- (str_app_cons c b).
  rewrite prefix_csv_app by done. rewrite Hp.
  by rewrite IH.
Qed.

(** ** The primitives *)

Lemma table_names_elem (db : gmap string DataFrame) (n : string) :
  n ∈ table_names db ↔ is_Some (db !! n).
Proof. unfold table_names. rewrite elem_of_elements. apply elem_of_dom. Qed.

Lemma insert_rows_run (n : string) (cols : list string) (rs acc : list (list string))
    (db : gmap string DataFrame) :
  foldl exec_stmt (<[n := mkDataFrame cols acc]> db) (map (InsertRow n) rs)
  = <[n := mkDataFrame cols (acc ++ rs)]> db.
Proof.
  revert acc. induction rs as [|r rs IH]; intros acc; simpl.
  - by rewrite app_nil_r.
  - rewrite alter_insert_eq. simpl. rewrite IH. by rewrite <- app_assoc.
Qed.

(** Whatever the table held, the statements of [to_sql] leave exactly the
    parsed file under its name. *)
Lemma to_sql_stmts_run (n : string) (df : DataFrame) (db : gmap string DataFrame) :
  foldl exec_stmt db (to_sql_stmts (bool_decide (is_Some (db !! n))) n df)
  = <[n := df]> db.
Proof.
  unfold to_sql_stmts. rewrite foldl_app. destruct df as [cols rs].
  cbn [columns rows foldl].
  assert (exec_stmt (foldl exec_stmt db
            (if bool_decide (is_Some (db !! n)) then [DropTable n] else []))
            (CreateTable n cols) = <[n := mkDataFrame cols []]> db) as ->.
  { case_bool_decide; simpl; [by rewrite insert_delete_eq | done]. }
  by rewrite insert_rows_run.
Qed.

Lemma engine_begin_to_sql (n : string) (df : DataFrame) (s : State) :
  engine_begin (to_sql n df) s =
  match head (write_faults s) with
  | Some (Some (k, e)) => (Raise e, rolled_back n df k s)
  | _ => (Ok tt, committed n df s)
  end.
Proof.
  unfold engine_begin, to_sql, committed, rolled_back.
  unfold log, set_tx, set_store, set_write_faults.
  cbn [tx write_faults store info_cache conn_faults cache_data events shown session_state].
  destruct (head (write_faults s)) as [[[k e]|]|];
    cbn [tx write_faults store info_cache conn_faults cache_data events shown
         session_state default];
    rewrite ?to_sql_stmts_run, <- ?app_assoc; reflexivity.
Qed.

Lemma engine_autocommit_to_sql (n : string) (df : DataFrame) (s : State) :
  engine_autocommit (to_sql n df) s =
  match head (write_faults s) with
  | Some (Some (k, e)) => (Raise e, partly_written n df k s)
  | _ => (Ok tt, committed n df s)
  end.
Proof.
  unfold engine_autocommit, to_sql, committed, partly_written.
  unfold log, set_tx, set_store, set_write_faults.
  cbn [tx write_faults store info_cache conn_faults cache_data events shown session_state].
  destruct (head (write_faults s)) as [[[k e]|]|];
    cbn [tx write_faults store info_cache conn_faults cache_data events shown
         session_state default from_option id];
    rewrite ?to_sql_stmts_run, <- ?app_assoc; reflexivity.
Qed.

Lemma conn_ok_head (s : State) (e : Exception) :
  conn_ok s → head (conn_faults s) ≠ Some (Some e).
Proof.
  unfold conn_ok. destruct (conn_faults s) as [|f r]; [done |].
  intros [Hf _]%Forall_cons_1 [= ->]. done.
Qed.

Lemma Forall_tail {A} (P : A → Prop) (l : list A) :
  Forall P l → Forall P (tail l).
Proof. destruct l; [done |]. by intros [_ ?]%Forall_cons_1. Qed.

Section after_names.
Variable s : State.

Lemma store_after_names : store (after_names s) = store s.
Proof. unfold after_names. by destruct (info_cache s). Qed.

Lemma write_faults_after_names : write_faults (after_names s) = write_faults s.
Proof. unfold after_names. by destruct (info_cache s). Qed.

Lemma conn_faults_after_names : conn_faults (after_names s) = tail (conn_faults s).
Proof. unfold after_names. by destruct (info_cache s). Qed.

Lemma info_cache_after_names : info_cache (after_names s) = Some (snapshot s).
Proof.
  unfold after_names, snapshot.
  destruct (info_cache s) eqn:E; cbn; by rewrite ?E.
Qed.

Lemma shown_after_names : shown (after_names s) = shown s.
Proof. unfold after_names. by destruct (info_cache s). Qed.

Lemma session_after_names : session_state (after_names s) = session_state s.
Proof. unfold after_names. by destruct (info_cache s). Qed.

Lemma cache_data_after_names : cache_data (after_names s) = cache_data s.
Proof. unfold after_names. by destruct (info_cache s). Qed.

Lemma events_after_names :
  events (after_names s)
  = events s ++ match info_cache s with Some _ => [] | None => [EvCatalogQuery] end.
Proof. unfold after_names. destruct (info_cache s); cbn; by rewrite ?app_nil_r. Qed.

End after_names.

Lemma get_table_names_ok (s : State) :
  conn_ok s → get_table_names s = (Ok (snapshot s), after_names s).
Proof.
  intros Hok. unfold get_table_names, bind, checkout, after_names, snapshot.
  destruct (head (conn_faults s)) as [[e|]|] eqn:Hh;
    [by apply conn_ok_head in Hh | |]; simpl; by destruct (info_cache s).
Qed.

(** The loop body, the inspector keeping its connection, takes one [step]. *)
Lemma process_file_step (fs : FileSystem) (filename : string)
    (fl : list string) (s : State) :
  conn_ok s →
  ∃ s' lines,
    process_file fs filename fl s = (Ok (fl ++ loaded_names lines), s')
    ∧ step fs s filename s' lines.
Proof.
  intros Hok. unfold process_file.
  destruct (endswith filename ".csv") eqn:Hc.
  2:{ exists s, []. simpl. rewrite app_nil_r. split; [done | by constructor]. }
  unfold bind at 1. rewrite get_table_names_ok by done.
  fold (derive_table_name filename).
  case_bool_decide as Hin.
  { eexists _, _. split; [| by apply step_skip].
    simpl. by rewrite app_nil_r. }
  unfold try_except, bind, pd_read_csv.
  destruct (csv_content fs (os_path_join data_folder filename)) as [e|df] eqn:Hcsv.
  { eexists _, _. split; [| by eapply step_parse_error].
    simpl. by rewrite app_nil_r. }
  rewrite engine_begin_to_sql.
  assert (head (write_faults (log [EvReadCsv (os_path_join data_folder filename)]
            (after_names s))) = head (write_faults s)) as Hwf.
  { simpl. by rewrite write_faults_after_names. }
  destruct (head (write_faults s)) as [[[k e]|]|] eqn:Hh; rewrite Hwf.
  - eexists _, _. split; [| by eapply step_write_error].
    simpl. by rewrite app_nil_r.
  - eexists _, _. split; [| eapply step_load; eauto]. done.
  - eexists _, _. split; [| eapply step_load; eauto]. done.
Qed.

Create Rewrite HintDb state.
#[local] Hint Rewrite store_after_names write_faults_after_names
  conn_faults_after_names info_cache_after_names shown_after_names
  session_after_names cache_data_after_names events_after_names : state.

(** Projections of the states the steps build reduce field by field. *)
Ltac state_simpl :=
  cbn [store tx info_cache conn_faults write_faults cache_data events shown
       session_state show log committed rolled_back set_store set_tx
       set_info_cache set_conn_faults set_write_faults set_cache_data
       set_session after_inspect];
  autorewrite with state.

Ltac step_inv H :=
  inversion H; subst; clear H; state_simpl.

Lemma step_conn_ok fs s f s' lines :
  conn_ok s → step fs s f s' lines → conn_ok s'.
Proof.
  unfold conn_ok. intros Hok H. step_inv H; auto using Forall_tail.
Qed.

Lemma step_write_ok fs s f s' lines :
  write_ok s → step fs s f s' lines → write_ok s'.
Proof.
  unfold write_ok. intros Hok H. step_inv H; auto using Forall_tail.
Qed.

Lemma step_snapshot fs s f s' lines :
  step fs s f s' lines → snapshot s' = snapshot s.
Proof.
  intros H. unfold snapshot at 1. by step_inv H.
Qed.

Lemma step_shown fs s f s' lines :
  step fs s f s' lines → shown s' = shown s ++ lines.
Proof. intros H. step_inv H; by rewrite ?app_nil_r. Qed.

Lemma step_session fs s f s' lines :
  step fs s f s' lines → session_state s' = session_state s.
Proof. intros H. by step_inv H. Qed.

(** A step writes at most the table the file name derives, and only when
    that name is not in the snapshot. *)
Lemma step_store fs s f s' lines :
  step fs s f s' lines →
  store s' = store s
  ∨ (∃ df, is_candidate f = true
           ∧ (derive_table_name f ∉ snapshot s)
           ∧ csv_content fs (os_path_join data_folder f) = inr df
           ∧ lines = [Loaded (derive_table_name f) (df_len df)]
           ∧ store s' = <[derive_table_name f := df]> (store s)).
Proof.
  intros Hstep.
  inversion Hstep as [Hc | Hc Hs | e Hc Hs Hcsv | df k e Hc Hs Hcsv Hw | df Hc Hs Hcsv Hw];
    subst; state_simpl; [by left .. |].
  right. by exists df.
Qed.

Lemma step_store_frame fs s f s' lines n :
  step fs s f s' lines →
  n ≠ derive_table_name f ∨ n ∈ snapshot s ∨ is_candidate f = false →
  store s' !! n = store s !! n.
Proof.
  intros H Hn. destruct (step_store _ _ _ _ _ H) as [-> | (df & Hc & Hnot & _ & _ & ->)];
    [done |].
  apply lookup_insert_ne. intros <-.
  destruct Hn as [? | [? | ?]]; [done | done | congruence].
Qed.

Lemma step_store_mono fs s f s' lines n :
  step fs s f s' lines → is_Some (store s !! n) → is_Some (store s' !! n).
Proof.
  intros H Hn. destruct (step_store _ _ _ _ _ H) as [-> | (df & _ & _ & _ & _ & ->)];
    [done |].
  rewrite lookup_insert. case_decide; [by eexists | done].
Qed.

(** The line a candidate adds, and no line for the other directory
    entries. *)
Lemma step_lines fs s f s' lines :
  step fs s f s' lines →
  if is_candidate f then ∃ m, lines = [m] ∧ entry_ok fs (snapshot s) f m
  else lines = [].
Proof.
  intros Hstep. unfold entry_ok.
  inversion Hstep as [Hc | Hc Hin | e Hc Hin Hcsv | df k e Hc Hin Hcsv Hw | df Hc Hin Hcsv Hw];
    subst; rewrite Hc; [done | ..]; eexists; (split; [done |]).
  - by rewrite bool_decide_eq_true_2.
  - rewrite bool_decide_eq_false_2 by done. by rewrite Hcsv.
  - rewrite bool_decide_eq_false_2 by done. rewrite Hcsv. right. by eexists.
  - rewrite bool_decide_eq_false_2 by done. rewrite Hcsv. by left.
Qed.

Lemma step_loaded_present fs s f s' lines n k :
  step fs s f s' lines → Loaded n k ∈ lines →
  ∃ df, csv_content fs (os_path_join data_folder f) = inr df
        ∧ n = derive_table_name f ∧ k = df_len df
        ∧ store s' !! n = Some df.
Proof.
  intros Hstep Hin.
  inversion Hstep as [Hc | Hc Hs | e Hc Hs Hcsv | df k' e Hc Hs Hcsv Hw | df Hc Hs Hcsv Hw];
    subst; try (by apply elem_of_nil in Hin);
    apply list_elem_of_singleton in Hin; try discriminate.
  injection Hin as -> ->. exists df. state_simpl.
  by rewrite lookup_insert_eq.
Qed.

Lemma to_sql_stmts_table (present : bool) (n : string) (df : DataFrame) :
  Forall (λ st, stmt_table st = n) (to_sql_stmts present n df).
Proof.
  unfold to_sql_stmts. apply Forall_app. split; [destruct present; by repeat constructor |].
  constructor; [done |]. by apply Forall_map, Forall_true.
Qed.

Lemma stmt_events_of_file (f : string) (stmts : list Stmt) :
  Forall (λ st, stmt_table st = derive_table_name f) stmts →
  Forall (event_of_file f) (EvStmt <$> stmts).
Proof. intros H. by apply Forall_fmap. Qed.

(** The events of a step: the catalog query if the memo was empty, then
    events of the file itself, and none of those for a file that is ignored
    or skipped. *)
Lemma step_events fs s f s' lines :
  step fs s f s' lines →
  ∃ evs, events s' = events s ++ catalog_events f s ++ evs
         ∧ Forall (event_of_file f) evs
         ∧ (evs ≠ [] → is_candidate f = true ∧ derive_table_name f ∉ snapshot s).
Proof.
  intros Hstep. unfold catalog_events.
  inversion Hstep as [Hc | Hc Hs | e Hc Hs Hcsv | df k e Hc Hs Hcsv Hw | df Hc Hs Hcsv Hw];
    subst; state_simpl; rewrite Hc.
  - exists []. by rewrite !app_nil_r.
  - exists []. by rewrite !app_nil_r.
  - eexists. rewrite <- app_assoc. split; [done |]. split; [| done].
    by repeat constructor.
  - eexists. rewrite <- !app_assoc. split; [done |]. split; [| done].
    constructor; [done |]. constructor; [done |].
    apply Forall_app. split; [| by repeat constructor].
    apply stmt_events_of_file, Forall_take, to_sql_stmts_table.
  - eexists. rewrite <- !app_assoc. split; [done |]. split; [| done].
    constructor; [done |]. constructor; [done |].
    apply Forall_app. split; [| by repeat constructor].
    apply stmt_events_of_file, to_sql_stmts_table.
Qed.

Lemma step_info_cache fs s f s' lines :
  step fs s f s' lines →
  info_cache s' = if is_candidate f then Some (snapshot s) else info_cache s.
Proof.
  intros H. inversion H; subst; clear H; state_simpl;
    repeat match goal with
           | H : is_candidate _ = _ |- _ => rewrite H
           end; done.
Qed.

(** ** The loop *)

Lemma loaded_names_app (l1 l2 : list Message) :
  loaded_names (l1 ++ l2) = loaded_names l1 ++ loaded_names l2.
Proof. apply omap_app. Qed.

Lemma for_each_file_steps (fs : FileSystem) (listing : list string)
    (fl : list string) (s : State) :
  conn_ok s →
  ∃ s' lines,
    for_each_file fs listing fl s = (Ok (fl ++ loaded_names lines), s')
    ∧ steps fs s listing s' lines.
Proof.
  revert fl s. induction listing as [|f rest IH]; intros fl s Hok.
  - exists s, []. simpl. rewrite app_nil_r. split; [done | constructor].
  - destruct (process_file_step fs f fl s Hok) as (s1 & lines1 & Heq & Hstep).
    destruct (IH (fl ++ loaded_names lines1) s1) as (s2 & lines2 & Heq2 & Hsteps).
    { by eapply step_conn_ok. }
    exists s2, (lines1 ++ lines2). split; [| by econstructor].
    cbn [for_each_file]. unfold bind. rewrite Heq, Heq2.
    by rewrite loaded_names_app, app_assoc.
Qed.

Lemma steps_app_inv fs s l1 l2 s' lines :
  steps fs s (l1 ++ l2) s' lines →
  ∃ s1 lines1 lines2,
    steps fs s l1 s1 lines1 ∧ steps fs s1 l2 s' lines2 ∧ lines = lines1 ++ lines2.
Proof.
  revert s lines. induction l1 as [|f l1 IH]; intros s lines H.
  - exists s, [], lines. split; [constructor | done].
  - inversion H as [|? ? sa la ? ? lb Hstep Hrest]; subst.
    destruct (IH _ _ Hrest) as (s1 & lines1 & lines2 & H1 & H2 & ->).
    exists s1, (la ++ lines1), lines2. split; [by econstructor |].
    split; [done | by rewrite app_assoc].
Qed.

Lemma steps_conn_ok fs s l s' lines :
  steps fs s l s' lines → conn_ok s → conn_ok s'.
Proof. induction 1; eauto using step_conn_ok. Qed.

Lemma steps_write_ok fs s l s' lines :
  steps fs s l s' lines → write_ok s → write_ok s'.
Proof. induction 1; eauto using step_write_ok. Qed.

Lemma steps_snapshot fs s l s' lines :
  steps fs s l s' lines → snapshot s' = snapshot s.
Proof.
  induction 1 as [|? ? ? ? ? ? ? Hstep _ IH]; [done |].
  rewrite IH. by eapply step_snapshot.
Qed.

Lemma steps_shown fs s l s' lines :
  steps fs s l s' lines → shown s' = shown s ++ lines.
Proof.
  induction 1 as [|? ? ? ? ? ? ? Hstep _ IH]; [by rewrite app_nil_r |].
  rewrite IH, (step_shown _ _ _ _ _ Hstep). by rewrite app_assoc.
Qed.

Lemma steps_session fs s l s' lines :
  steps fs s l s' lines → session_state s' = session_state s.
Proof.
  induction 1 as [|? ? ? ? ? ? ? Hstep _ IH]; [done |].
  rewrite IH. by eapply step_session.
Qed.

(** One line per candidate, in the order of the listing, each decided
    against the same snapshot. *)
Lemma steps_lines fs s l s' lines :
  steps fs s l s' lines →
  Forall2 (entry_ok fs (snapshot s)) (candidates l) lines.
Proof.
  induction 1 as [|s f s1 lines1 rest s2 lines2 Hstep _ IH]; [constructor |].
  pose proof (step_lines _ _ _ _ _ Hstep) as Hl.
  rewrite (step_snapshot _ _ _ _ _ Hstep) in IH.
  unfold candidates in *. cbn [List.filter].
  destruct (is_candidate f).
  - destruct Hl as (m & -> & Hm). by constructor.
  - by subst.
Qed.

Lemma steps_store_snapshot fs s l s' lines n :
  steps fs s l s' lines → n ∈ snapshot s → store s' !! n = store s !! n.
Proof.
  induction 1 as [|? ? ? ? ? ? ? Hstep _ IH]; [done |]. intros Hn.
  rewrite IH by by rewrite (step_snapshot _ _ _ _ _ Hstep).
  eapply step_store_frame; eauto.
Qed.

Lemma steps_store_frame fs s l s' lines n :
  steps fs s l s' lines →
  Forall (λ f, derive_table_name f ≠ n) (candidates l) →
  store s' !! n = store s !! n.
Proof.
  induction 1 as [|s f s1 lines1 rest s2 lines2 Hstep _ IH]; [done |].
  unfold candidates in *. cbn [List.filter]. intros Hall.
  destruct (is_candidate f) eqn:Hc.
  - apply Forall_cons_1 in Hall as [Hf Hall]. rewrite IH by done.
    eapply step_store_frame; eauto.
  - rewrite IH by done. eapply step_store_frame; eauto.
Qed.

Lemma steps_store_mono fs s l s' lines n :
  steps fs s l s' lines → is_Some (store s !! n) → is_Some (store s' !! n).
Proof. induction 1; eauto using step_store_mono. Qed.

(** A table reported as loaded is in the store when the loop ends. *)
Lemma steps_loaded_present fs s l s' lines n k :
  steps fs s l s' lines → Loaded n k ∈ lines → is_Some (store s' !! n).
Proof.
  induction 1 as [|s f s1 lines1 rest s2 lines2 Hstep Hrest IH]; [by intros ?%elem_of_nil |].
  intros [Hin | Hin]%elem_of_app; [| by apply IH].
  eapply steps_store_mono; [done |].
  destruct (step_loaded_present _ _ _ _ _ _ _ Hstep Hin) as (df & _ & _ & _ & ->).
  by eexists.
Qed.

Lemma entry_ok_file_outcome fs names f m :
  entry_ok fs names f m → is_file_outcome m = true.
Proof.
  unfold entry_ok. case_bool_decide; [by intros -> |].
  destruct (csv_content _ _); naive_solver.
Qed.

Lemma load_report_lines fs names cs lines :
  Forall2 (entry_ok fs names) cs lines → load_report lines = lines.
Proof.
  unfold load_report. induction 1 as [|f m cs lines Hm _ IH]; [done |].
  simpl. by rewrite (entry_ok_file_outcome _ _ _ _ Hm), IH.
Qed.

(** With no write fault to come, a candidate that parses and is not in the
    snapshot has its table in the store when the loop ends. *)
Lemma steps_parsed_present fs s l s' lines f df :
  steps fs s l s' lines → write_ok s →
  f ∈ candidates l →
  csv_content fs (os_path_join data_folder f) = inr df →
  derive_table_name f ∉ snapshot s →
  is_Some (store s' !! derive_table_name f).
Proof.
  induction 1 as [|s f0 s1 lines1 rest s2 lines2 Hstep Hrest IH];
    [by intros _ ?%elem_of_nil |].
  intros Hw Hin Hcsv Hnot.
  assert (f = f0 ∧ is_candidate f0 = true ∨ f ∈ candidates rest) as [[-> Hc] | Hin'].
  { unfold candidates in *. cbn [List.filter] in Hin.
    destruct (is_candidate f0); [| by right].
    apply elem_of_cons in Hin as [-> | ?]; auto. }
  - eapply steps_store_mono; [done |].
    inversion Hstep; subst; state_simpl; try congruence.
    + exfalso. unfold write_ok in Hw.
      destruct (write_faults s) as [|w ws]; [done |].
      apply Forall_cons_1 in Hw as [-> _]. done.
    + rewrite lookup_insert_eq. by eexists.
  - apply IH; [by eapply step_write_ok | done | done |].
    by rewrite (step_snapshot _ _ _ _ _ Hstep).
Qed.

(** A loop in which every candidate that parses is in the snapshot writes
    nothing. *)
Lemma steps_store_unchanged fs s l s' lines :
  steps fs s l s' lines →
  (∀ f df, f ∈ candidates l →
           csv_content fs (os_path_join data_folder f) = inr df →
           derive_table_name f ∈ snapshot s) →
  store s' = store s.
Proof.
  induction 1 as [|s f0 s1 lines1 rest s2 lines2 Hstep Hrest IH]; [done |].
  intros Hall. rewrite IH.
  - destruct (step_store _ _ _ _ _ Hstep) as [-> | (df & Hc & Hnot & Hcsv & _ & _)];
      [done |].
    exfalso. apply Hnot. apply (Hall f0 df); [| done].
    unfold candidates. cbn [List.filter]. rewrite Hc. by left.
  - intros f df Hin Hcsv. rewrite (step_snapshot _ _ _ _ _ Hstep).
    apply (Hall f df); [| done].
    unfold candidates in *. cbn [List.filter]. destruct (is_candidate f0); [by right | done].
Qed.

(** ** A whole run *)

Lemma inspect_ok (s : State) :
  conn_ok s → inspect s = (Ok tt, after_inspect s).
Proof.
  intros Hok. unfold inspect, bind, checkout, after_inspect.
  destruct (head (conn_faults s)) as [[e|]|] eqn:Hh;
    [by apply conn_ok_head in Hh | done | done].
Qed.

Lemma conn_ok_after_inspect (s : State) : conn_ok s → conn_ok (after_inspect s).
Proof. unfold conn_ok. simpl. apply Forall_tail. Qed.

Lemma ingest_all_steps (fs : FileSystem) (listing : list string) (s : State) :
  conn_ok s → data_dir fs = Some listing →
  ∃ s' lines,
    steps fs s listing s' lines
    ∧ ingest_all fs s
      = (Ok tt, set_session (mkSession (Some true) (Some (loaded_names lines))
                               (ss_engine (session_state s'))) s').
Proof.
  intros Hok Hdir. unfold ingest_all, os_path_exists, os_listdir. rewrite Hdir. simpl.
  destruct (for_each_file_steps fs listing [] s Hok) as (s' & lines & Heq & Hsteps).
  exists s', lines. split; [done |]. unfold bind. by rewrite Heq.
Qed.

Lemma run_ingest_steps (fs : FileSystem) (listing : list string) (s : State) :
  conn_ok s → data_dir fs = Some listing →
  ∃ s' lines,
    steps fs (after_inspect s) listing s' lines
    ∧ run_ingest fs s
      = (Ok tt, set_session (mkSession (Some true) (Some (loaded_names lines))
                               (ss_engine (session_state s'))) s').
Proof.
  intros Hok Hdir. unfold run_ingest, bind at 1. rewrite inspect_ok by done.
  apply ingest_all_steps; [by apply conn_ok_after_inspect | done].
Qed.

Lemma ingest_all_no_dir (fs : FileSystem) (s : State) :
  data_dir fs = None → ingest_all fs s = (Ok tt, show (DataDirNotFound data_folder) s).
Proof. intros Hdir. unfold ingest_all, os_path_exists. by rewrite Hdir. Qed.

(** What a run from a process that has just started amounts to: the lines
    shown are the report, decided against the tables present at the start. *)
Lemma run_ingest_initial fs listing db wf :
  data_dir fs = Some listing →
  ∃ s' lines,
    steps fs (after_inspect (initial_state db [] wf)) listing s' lines
    ∧ (run_ingest fs (initial_state db [] wf)).1 = Ok tt
    ∧ store (run_ingest fs (initial_state db [] wf)).2 = store s'
    ∧ load_report (shown (run_ingest fs (initial_state db [] wf)).2) = lines
    ∧ Forall2 (entry_ok fs (table_names db)) (candidates listing) lines.
Proof.
  intros Hdir.
  destruct (run_ingest_steps fs listing (initial_state db [] wf)) as (s' & lines & Hsteps & Heq);
    [by constructor | done |].
  exists s', lines. rewrite Heq. cbn.
  pose proof (steps_lines _ _ _ _ _ Hsteps) as Hlines.
  pose proof (steps_shown _ _ _ _ _ Hsteps) as Hshown.
  cbn in Hlines, Hshown. rewrite Hshown.
  repeat split; try done. by eapply load_report_lines.
Qed.

(** C1.  Idempotence of the ingestion run: when the ingestion is run against
    an empty store and then run again, for whatever directory, every file
    reported [Loaded] by the first run is reported [Skipped] by the second,
    and every table the first run left is left as it was by the second; if
    no write of the first run was refused, the second run leaves the whole
    store as it was. *)
Theorem ingest_twice_idempotent (fs : FileSystem)
    (wf1 wf2 : list (option (nat * Exception))) :
  let s1 := (run_ingest fs (initial_state ∅ [] wf1)).2 in
  let s2 := (run_ingest fs (initial_state (store s1) [] wf2)).2 in
  (∀ i n k, load_report (shown s1) !! i = Some (Loaded n k) →
            load_report (shown s2) !! i = Some (Skipped n))
  ∧ (∀ n, is_Some (store s1 !! n) → store s2 !! n = store s1 !! n)
  ∧ (Forall (λ f, f = None) wf1 → store s2 = store s1).
Proof.
  intros s1 s2. destruct (data_dir fs) as [listing|] eqn:Hdir.
  2:{ subst s1 s2. unfold run_ingest, bind.
      rewrite !inspect_ok by by constructor.
      rewrite !ingest_all_no_dir by done. cbn. repeat split; done. }
  destruct (run_ingest_initial fs listing ∅ wf1 Hdir)
    as (t1 & lines1 & Hsteps1 & _ & Hst1 & Hrep1 & Hl1).
  destruct (run_ingest_initial fs listing (store s1) wf2 Hdir)
    as (t2 & lines2 & Hsteps2 & _ & Hst2 & Hrep2 & Hl2).
  fold s1 in Hst1, Hrep1. fold s2 in Hst2, Hrep2.
  rewrite Hrep1, Hrep2, Hst2.
  assert (∀ n, n ∈ snapshot (after_inspect (initial_state (store s1) [] wf2))
               ↔ is_Some (store s1 !! n)) as Hsnap by (intros n; apply table_names_elem).
  split; [| split].
  - intros i n k Hi.
    destruct (Forall2_lookup_r _ _ _ _ _ Hl1 Hi) as (f & Hf & Hm).
    assert (n = derive_table_name f) as ->.
    { unfold entry_ok in Hm. case_bool_decide; [done |].
      destruct (csv_content _ _); naive_solver. }
    destruct (Forall2_lookup_l _ _ _ _ _ Hl2 Hf) as (m & -> & Hm2).
    unfold entry_ok in Hm2. rewrite bool_decide_eq_true_2 in Hm2; [by subst |].
    apply table_names_elem. rewrite Hst1.
    eapply steps_loaded_present; [done |]. by eapply list_elem_of_lookup_2.
  - intros n Hn. rewrite (steps_store_snapshot _ _ _ _ _ n Hsteps2); [done |].
    by apply Hsnap.
  - intros Hw. rewrite (steps_store_unchanged _ _ _ _ _ Hsteps2); [done |].
    intros f df Hin Hcsv. apply Hsnap. rewrite Hst1.
    eapply steps_parsed_present; eauto.
    cbn. unfold table_names. rewrite dom_empty_L, elements_empty. apply not_elem_of_nil.
Qed.

(** ** Events of the loop *)

Lemma candidates_cons (f : string) (l : list string) :
  candidates (f :: l) = if is_candidate f then f :: candidates l else candidates l.
Proof. reflexivity. Qed.

Lemma candidates_app (l1 l2 : list string) :
  candidates (l1 ++ l2) = candidates l1 ++ candidates l2.
Proof. apply List.filter_app. Qed.

(** The loop asks the database for its table names at most once, before
    anything else it does, and every other event belongs to a candidate whose
    table name is not in the snapshot. *)
Lemma steps_events fs s l s' lines :
  steps fs s l s' lines →
  ∃ evs,
    events s' = events s
                ++ match info_cache s, candidates l with
                   | None, _ :: _ => [EvCatalogQuery]
                   | _, _ => []
                   end
                ++ evs
    ∧ Forall (λ ev, ∃ f, f ∈ candidates l
                         ∧ (derive_table_name f ∉ snapshot s)
                         ∧ event_of_file f ev) evs.
Proof.
  induction 1 as [|s f s1 lines1 rest s2 lines2 Hstep Hrest IH].
  { exists []. split; [| constructor].
    change (candidates []) with (@nil string).
    destruct (info_cache s); cbn [app]; by rewrite !app_nil_r. }
  destruct IH as (evs2 & Hev2 & Hall2).
  destruct (step_events _ _ _ _ _ Hstep) as (evs1 & Hev1 & Hall1 & Hne).
  pose proof (step_info_cache _ _ _ _ _ Hstep) as Hcache.
  pose proof (step_snapshot _ _ _ _ _ Hstep) as Hsnap.
  rewrite candidates_cons. unfold catalog_events in Hev1.
  destruct (is_candidate f) eqn:Hc.
  - exists (evs1 ++ evs2). rewrite Hev2, Hev1, Hcache. split.
    + destruct (info_cache s); cbn [app]; by rewrite <- ?app_assoc.
    + apply Forall_app. split.
      * destruct evs1 as [|ev evs1]; [constructor |].
        destruct Hne as [_ Hnot]; [done |].
        eapply Forall_impl; [exact Hall1 |]. intros ev' Hev'.
        exists f. split; [by left | done].
      * eapply Forall_impl; [exact Hall2 |]. intros ev' (f' & Hin & Hnot & Hev').
        exists f'. rewrite <- Hsnap. split; [by right | done].
  - destruct evs1 as [|ev evs1]; [| by destruct Hne as [? _]].
    exists evs2. rewrite Hev2, Hev1, Hcache. rewrite !app_nil_r. split; [done |].
    eapply Forall_impl; [exact Hall2 |]. intros ev' (f' & Hin & Hnot & Hev').
    exists f'. by rewrite <- Hsnap.
Qed.

Lemma os_path_join_inj (folder f1 f2 : string) :
  os_path_join folder f1 = os_path_join folder f2 → f1 = f2.
Proof.
  unfold os_path_join. intros H.
  apply (inj (String.app folder)) in H. by apply (inj (String.app "/")) in H.
Qed.

(** C2.  Skip semantics: in a run, a candidate file whose derived table name
    is among the tables present at the start gets the line [Skipped] at its
    place in the report; its path is never read, no statement is sent for its
    table, and the table is afterwards what it was. *)
Theorem skip_semantics (fs : FileSystem) (listing : list string)
    (db : gmap string DataFrame) (wf : list (option (nat * Exception)))
    (i : nat) (f : string) :
  data_dir fs = Some listing →
  candidates listing !! i = Some f →
  is_Some (db !! derive_table_name f) →
  let s' := (run_ingest fs (initial_state db [] wf)).2 in
  load_report (shown s') !! i = Some (Skipped (derive_table_name f))
  ∧ (EvReadCsv (os_path_join data_folder f) ∉ events s')
  ∧ (∀ st, EvStmt st ∈ events s' → stmt_table st ≠ derive_table_name f)
  ∧ store s' !! derive_table_name f = db !! derive_table_name f.
Proof.
  intros Hdir Hf Hin s'.
  destruct (run_ingest_steps fs listing (initial_state db [] wf))
    as (t & lines & Hsteps & Heq); [by constructor | done |].
  assert (derive_table_name f ∈ snapshot (after_inspect (initial_state db [] wf))) as Hsnap.
  { by apply table_names_elem. }
  pose proof (steps_lines _ _ _ _ _ Hsteps) as Hlines.
  pose proof (steps_shown _ _ _ _ _ Hsteps) as Hshown.
  destruct (steps_events _ _ _ _ _ Hsteps) as (evs & Hev & Hall).
  assert (shown s' = lines ∧ events s' = events t ∧ store s' = store t) as (Hs1 & Hs2 & Hs3).
  { subst s'. rewrite Heq. cbn [snd]. state_simpl. by rewrite Hshown. }
  rewrite Hs1, Hs2, Hs3, (load_report_lines _ _ _ _ Hlines). clear Heq Hs1 Hs2 Hs3.
  assert (∀ ev, ev ∈ events t → ev = EvCatalogQuery ∨ ∃ f', (derive_table_name f' ∉
            snapshot (after_inspect (initial_state db [] wf))) ∧ event_of_file f' ev) as Hscope.
  { intros ev. rewrite Hev. cbn [events after_inspect set_info_cache set_conn_faults
      initial_state info_cache app].
    intros Hev'. destruct (candidates listing).
    - right. rewrite Forall_forall in Hall. destruct (Hall ev Hev') as (f' & _ & ? & ?); eauto.
    - apply elem_of_cons in Hev' as [-> | Hev']; [by left |].
      right. rewrite Forall_forall in Hall. destruct (Hall ev Hev') as (f' & _ & ? & ?); eauto. }
  repeat split.
  - destruct (Forall2_lookup_l _ _ _ _ _ Hlines Hf) as (m & -> & Hm).
    unfold entry_ok in Hm. rewrite bool_decide_eq_true_2 in Hm by done. by subst.
  - intros [? | (f' & Hnot & Hf')]%Hscope; [done |].
    cbn in Hf'. apply os_path_join_inj in Hf'. by subst.
  - intros st [? | (f' & Hnot & Hf')]%Hscope Htable; [done |].
    cbn in Hf'. congruence.
  - by apply (steps_store_snapshot _ _ _ _ _ _ Hsteps).
Qed.

Lemma write_ok_head (s : State) :
  write_ok s → head (write_faults s) = None ∨ head (write_faults s) = Some None.
Proof.
  unfold write_ok. destruct (write_faults s) as [|w ws]; [by left |].
  intros [-> _]%Forall_cons_1. by right.
Qed.

(** What a step is when the file is a candidate that parses, is not in the
    snapshot, and whose write is not refused. *)
Lemma step_load_inv fs s f s' lines df :
  step fs s f s' lines →
  is_candidate f = true →
  derive_table_name f ∉ snapshot s →
  csv_content fs (os_path_join data_folder f) = inr df →
  head (write_faults s) = None ∨ head (write_faults s) = Some None →
  lines = [Loaded (derive_table_name f) (df_len df)]
  ∧ store s' = <[derive_table_name f := df]> (store s).
Proof.
  intros Hstep Hc Hs Hcsv Hw.
  inversion Hstep as [Hc' | Hc' Hs' | e Hc' Hs' Hcsv' | df' k e Hc' Hs' Hcsv' Hw'
                      | df' Hc' Hs' Hcsv' Hw']; subst; try congruence; try done.
  - destruct Hw; congruence.
  - assert (df' = df) as -> by congruence. state_simpl. done.
Qed.




(** ** Failures of one file *)

Lemma step_write_error_inv fs s f s' lines df k e :
  step fs s f s' lines →
  is_candidate f = true →
  derive_table_name f ∉ snapshot s →
  csv_content fs (os_path_join data_folder f) = inr df →
  head (write_faults s) = Some (Some (k, e)) →
  lines = [Failed f e]
  ∧ s' = show (Failed f e)
           (rolled_back (derive_table_name f) df k
              (log [EvReadCsv (os_path_join data_folder f)] (after_names s))).
Proof.
  intros Hstep Hc Hs Hcsv Hw.
  inversion Hstep as [Hc' | Hc' Hs' | e' Hc' Hs' Hcsv' | df' k' e' Hc' Hs' Hcsv' Hw'
                      | df' Hc' Hs' Hcsv' Hw']; subst; try congruence; try done.
  - assert (df' = df) as -> by congruence.
    assert (k' = k ∧ e' = e) as [-> ->] by (split; congruence). done.
  - destruct Hw'; congruence.
Qed.

Lemma step_parse_error_inv fs s f s' lines e :
  step fs s f s' lines →
  is_candidate f = true →
  derive_table_name f ∉ snapshot s →
  csv_content fs (os_path_join data_folder f) = inl e →
  lines = [Failed f e] ∧ store s' = store s.
Proof.
  intros Hstep Hc Hs Hcsv.
  inversion Hstep as [Hc' | Hc' Hs' | e' Hc' Hs' Hcsv' | df' k' e' Hc' Hs' Hcsv' Hw'
                      | df' Hc' Hs' Hcsv' Hw']; subst; try congruence; try done.
  assert (e' = e) as -> by congruence. by state_simpl.
Qed.

Lemma loaded_names_failed (f : string) (e : Exception) :
  loaded_names [Failed f e] = [].
Proof. reflexivity. Qed.

(** C4, as amended.  Per-file atomicity: the write of a file runs in one
    transaction; when the database raises in it, whatever number of
    statements went through, the transaction is rolled back, the line for the
    file is [Failed] with that error, the loop goes on, and the committed
    tables are exactly what they were just before this file was handled. *)
Theorem write_failure_rolls_back (fs : FileSystem) (f : string) (fl : list string)
    (s : State) (df : DataFrame) (k : nat) (e : Exception) :
  conn_ok s →
  is_candidate f = true →
  derive_table_name f ∉ snapshot s →
  csv_content fs (os_path_join data_folder f) = inr df →
  head (write_faults s) = Some (Some (k, e)) →
  ∃ s' stmts,
    process_file fs f fl s = (Ok fl, s')
    ∧ shown s' = shown s ++ [Failed f e]
    ∧ store s' = store s
    ∧ tx s' = None
    ∧ events s' = events s ++ catalog_events f s
                  ++ [EvReadCsv (os_path_join data_folder f); EvBegin]
                  ++ (EvStmt <$> stmts) ++ [EvRollback].
Proof.
  intros Hok Hc Hs Hcsv Hw.
  destruct (process_file_step fs f fl s Hok) as (s' & lines & Heq & Hstep).
  destruct (step_write_error_inv _ _ _ _ _ df k e Hstep Hc Hs Hcsv Hw) as [-> ->].
  eexists _, _. rewrite Heq, loaded_names_failed, app_nil_r.
  split; [done |]. state_simpl. unfold catalog_events. rewrite Hc.
  repeat split; try done. by rewrite <- !app_assoc.
Qed.

(** C4, as stated, fails: the first file of [ex_fs] loads the table
    ["orders"], the write of the second, which derives the same name, is
    refused; the table was absent before the run and is not absent after
    it. *)
Lemma atomicity_pre_run_counterexample :
  let s' := (run_ingest ex_fs (initial_state ∅ [] [None; Some (1, ex_interrupted)])).2 in
  ¬ (load_report (shown s') !! 1%nat = Some (Failed "Orders.csv" ex_interrupted) →
     (∅ : gmap string DataFrame) !! derive_table_name "Orders.csv" = None →
     store s' !! derive_table_name "Orders.csv" = None).
Proof.
  intros s' H.
  assert (store s' !! derive_table_name "Orders.csv" = Some df_orders) as Hst
    by (vm_compute; reflexivity).
  rewrite H in Hst; [discriminate | vm_compute; reflexivity | vm_compute; reflexivity].
Qed.

Lemma for_each_file_app (fs : FileSystem) (l1 l2 : list string)
    (fl : list string) (s : State) :
  for_each_file fs (l1 ++ l2) fl s =
  match for_each_file fs l1 fl s with
  | (Ok fl', s') => for_each_file fs l2 fl' s'
  | (Raise e, s') => (Raise e, s')
  end.
Proof.
  revert fl s. induction l1 as [|f l1 IH]; intros fl s; [done |].
  cbn [app for_each_file]. unfold bind.
  destruct (process_file fs f fl s) as [[fl'|e] s']; [apply IH | done].
Qed.

(** The line a candidate adds when the database refuses no write. *)
Lemma step_lines_write_ok fs s f s' lines :
  step fs s f s' lines → write_ok s →
  if is_candidate f then ∃ m, lines = [m] ∧ entry_no_fault fs (snapshot s) f m
  else lines = [].
Proof.
  intros Hstep Hw. unfold entry_no_fault.
  inversion Hstep as [Hc | Hc Hin | e Hc Hin Hcsv | df k e Hc Hin Hcsv Hf | df Hc Hin Hcsv Hf];
    subst; rewrite Hc; [done | ..].
  - eexists. split; [done |]. by rewrite bool_decide_eq_true_2.
  - eexists. split; [done |]. rewrite bool_decide_eq_false_2 by done. by rewrite Hcsv.
  - exfalso. destruct (write_ok_head _ Hw); congruence.
  - eexists. split; [done |]. rewrite bool_decide_eq_false_2 by done. by rewrite Hcsv.
Qed.

Lemma steps_lines_write_ok fs s l s' lines :
  steps fs s l s' lines → write_ok s →
  Forall2 (entry_no_fault fs (snapshot s)) (candidates l) lines.
Proof.
  induction 1 as [|s f s1 lines1 rest s2 lines2 Hstep _ IH]; [constructor |].
  intros Hw.
  pose proof (step_lines_write_ok _ _ _ _ _ Hstep Hw) as Hl.
  specialize (IH (step_write_ok _ _ _ _ _ Hw Hstep)).
  rewrite (step_snapshot _ _ _ _ _ Hstep) in IH.
  unfold candidates in *. cbn [List.filter].
  destruct (is_candidate f).
  - destruct Hl as (m & -> & Hm). by constructor.
  - by subst.
Qed.

(** What a step does to the tables, to the coming write faults and to the
    page is decided by the tables, the snapshot and the coming write faults
    alone: two states that agree on these take the same step. *)
Lemma step_sim fs s t f s' t' ls lt :
  store s = store t → snapshot s = snapshot t → write_faults s = write_faults t →
  step fs s f s' ls → step fs t f t' lt →
  ls = lt ∧ store s' = store t' ∧ snapshot s' = snapshot t'
  ∧ write_faults s' = write_faults t'.
Proof.
  intros Hst Hsn Hwf H1 H2.
  rewrite (step_snapshot _ _ _ _ _ H1), (step_snapshot _ _ _ _ _ H2).
  inversion H1 as [Hc | Hc Hin | e Hc Hin Hcsv | df k e Hc Hin Hcsv Hf | df Hc Hin Hcsv Hf];
    inversion H2 as [Hc' | Hc' Hin' | e' Hc' Hin' Hcsv' | df' k' e' Hc' Hin' Hcsv' Hf'
                     | df' Hc' Hin' Hcsv' Hf'];
    subst; state_simpl; try congruence;
    try (rewrite Hsn in *; done);
    try (rewrite Hwf in *; destruct Hf; congruence);
    try (rewrite Hwf in *; destruct Hf'; congruence).
  - assert (e' = e) as -> by congruence. done.
  - assert (df' = df) as -> by congruence.
    assert (e' = e) as -> by congruence. by rewrite Hwf.
  - assert (df' = df) as -> by congruence. by rewrite Hst, Hwf.
Qed.

Lemma steps_sim fs l s t s' t' ls lt :
  store s = store t → snapshot s = snapshot t → write_faults s = write_faults t →
  steps fs s l s' ls → steps fs t l t' lt →
  ls = lt ∧ store s' = store t' ∧ write_faults s' = write_faults t'.
Proof.
  intros Hst Hsn Hwf H1. revert t t' lt Hst Hsn Hwf.
  induction H1 as [|s f s1 lines1 rest s2 lines2 Hstep _ IH]; intros t t' lt Hst Hsn Hwf H2.
  - by inversion H2; subst.
  - inversion H2 as [|? ? t1 la ? ? lb Hstep' Hrest']; subst.
    destruct (step_sim _ _ _ _ _ _ _ _ Hst Hsn Hwf Hstep Hstep') as (-> & Hst1 & Hsn1 & Hwf1).
    destruct (IH _ _ _ Hst1 Hsn1 Hwf1 Hrest') as (-> & ? & ?). done.
Qed.

(** C5.  Per-file failure isolation: when the parser raises on a candidate,
    or the database raises in its write, the error is caught: the loop ends
    normally, the page gains one line per candidate, in order, and the line
    of that file is [Failed] with that error.  The failure stays with that
    file: handling it leaves the tables as they were and adds that one line;
    the loop then goes on with the files after it, which get the lines, the
    entries of [files_loaded] and the tables they get when the loop starts
    after the failing file without having met it.  Every table reported
    [Loaded], before or after the failure, is in the database at the end;
    and when the database refuses no later write, every later candidate
    gets the line the snapshot and the parser decide, and one that parses
    and is not in the snapshot has its rows in its table at the end, unless
    a file after it derives the same name. *)
Theorem failure_isolated (fs : FileSystem) (l1 l2 : list string) (f : string)
    (s0 : State) (e : Exception) :
  conn_ok s0 →
  is_candidate f = true →
  derive_table_name f ∉ snapshot s0 →
  (csv_content fs (os_path_join data_folder f) = inl e
   ∨ ∃ df k, csv_content fs (os_path_join data_folder f) = inr df
             ∧ head (write_faults (for_each_file fs l1 [] s0).2) = Some (Some (k, e))) →
  let sa := (for_each_file fs l1 [] s0).2 in
  let sb := (for_each_file fs (l1 ++ [f]) [] s0).2 in
  ∃ fl' s' r1 r2,
    for_each_file fs (l1 ++ f :: l2) [] s0 = (Ok fl', s')
    ∧ shown s' = shown s0 ++ r1 ++ Failed f e :: r2
    ∧ Forall2 (entry_ok fs (snapshot s0)) (candidates l1) r1
    ∧ Forall2 (entry_ok fs (snapshot s0)) (candidates l2) r2
    ∧ List.length (r1 ++ Failed f e :: r2) = List.length (candidates (l1 ++ f :: l2))
    ∧ fl' = loaded_names (r1 ++ r2)
    ∧ shown sb = shown sa ++ [Failed f e]
    ∧ store sb = store sa
    ∧ for_each_file fs l2 (loaded_names r1) sb = (Ok fl', s')
    ∧ (∃ t, for_each_file fs l2 (loaded_names r1) (set_write_faults (write_faults sb) sa)
            = (Ok fl', t)
            ∧ shown t = shown sa ++ r2
            ∧ store t = store s')
    ∧ (∀ n k, Loaded n k ∈ r1 ++ r2 → is_Some (store s' !! n))
    ∧ (write_ok sb →
       Forall2 (entry_no_fault fs (snapshot s0)) (candidates l2) r2
       ∧ ∀ l2a f' l2b df',
           l2 = l2a ++ f' :: l2b →
           is_candidate f' = true →
           csv_content fs (os_path_join data_folder f') = inr df' →
           derive_table_name f' ∉ snapshot s0 →
           Forall (λ g, derive_table_name g ≠ derive_table_name f') (candidates l2b) →
           store s' !! derive_table_name f' = Some df').
Proof.
  intros Hok Hc Hs Hfail sa sb.
  destruct (for_each_file_steps fs l1 [] s0 Hok) as (sa' & r1 & Heqa & Ha).
  assert (sa = sa') as Hsa' by (subst sa; by rewrite Heqa).
  rewrite Heqa in Hfail. cbn [snd] in Hfail.
  pose proof (steps_conn_ok _ _ _ _ _ Ha Hok) as Hoka.
  pose proof (steps_snapshot _ _ _ _ _ Ha) as Hsa.
  destruct (process_file_step fs f ([] ++ loaded_names r1) sa' Hoka)
    as (sb' & lb & Heqb & Hb).
  assert (sb = sb') as Hsb'.
  { subst sb. rewrite for_each_file_app, Heqa. cbn [for_each_file]. unfold bind at 1.
    by rewrite Heqb. }
  clearbody sa sb. subst sa' sb'.
  assert (lb = [Failed f e] ∧ store sb = store sa) as [-> Hstb].
  { destruct Hfail as [Hcsv | (df & k & Hcsv & Hw)].
    - destruct (step_parse_error_inv _ _ _ _ _ e Hb Hc) as [-> ?]; [by rewrite Hsa | done | done].
    - destruct (step_write_error_inv _ _ _ _ _ df k e Hb Hc) as [-> ->];
        [by rewrite Hsa | done | done |]. by state_simpl. }
  pose proof (step_conn_ok _ _ _ _ _ Hoka Hb) as Hokb.
  pose proof (step_snapshot _ _ _ _ _ Hb) as Hsb.
  destruct (for_each_file_steps fs l2 (([] ++ loaded_names r1) ++ loaded_names [Failed f e])
              sb Hokb) as (sc & r2 & Heqc & Hc2).
  rewrite loaded_names_failed, app_nil_r in Heqc. cbn [app] in Heqb, Heqc.
  rewrite <- loaded_names_app in Heqc.
  exists (loaded_names (r1 ++ r2)), sc, r1, r2.
  pose proof (steps_lines _ _ _ _ _ Ha) as Hl1.
  pose proof (steps_lines _ _ _ _ _ Hc2) as Hl2.
  rewrite Hsb, Hsa in Hl2.
  split.
  { rewrite for_each_file_app, Heqa. cbn [for_each_file app]. unfold bind at 1.
    by rewrite Heqb, loaded_names_failed, app_nil_r. }
  split.
  { rewrite (steps_shown _ _ _ _ _ Hc2), (step_shown _ _ _ _ _ Hb),
      (steps_shown _ _ _ _ _ Ha). by rewrite <- !app_assoc. }
  do 2 (split; [done |]).
  split.
  { rewrite candidates_app, candidates_cons, Hc, !length_app. cbn [List.length].
    by rewrite (Forall2_length _ _ _ Hl1), (Forall2_length _ _ _ Hl2). }
  split; [done |].
  split; [exact (step_shown _ _ _ _ _ Hb) |].
  split; [done |].
  split; [done |].
  split.
  { set (sa0 := set_write_faults (write_faults sb) sa).
    assert (conn_ok sa0) as Hok0 by done.
    destruct (for_each_file_steps fs l2 (loaded_names r1) sa0 Hok0)
      as (t & r2' & Heqt & Ht).
    assert (snapshot sb = snapshot sa0) as Hsn by (rewrite Hsb; done).
    assert (write_faults sb = write_faults sa0) as Hwf by done.
    assert (store sb = store sa0) as Hst0 by (rewrite Hstb; done).
    destruct (steps_sim _ _ _ _ _ _ _ _ Hst0 Hsn Hwf Hc2 Ht) as (<- & Hstt & _).
    exists t. rewrite Heqt, <- loaded_names_app.
    split; [done |]. split; [| done].
    by rewrite (steps_shown _ _ _ _ _ Ht). }
  split.
  { intros n k [Hin | Hin]%elem_of_app.
    - eapply steps_store_mono; [exact Hc2 |]. rewrite Hstb.
      by eapply steps_loaded_present.
    - by eapply steps_loaded_present. }
  intros Hwb. split.
  { pose proof (steps_lines_write_ok _ _ _ _ _ Hc2 Hwb) as H. by rewrite Hsb, Hsa in H. }
  intros l2a f' l2b df' -> Hc' Hcsv' Hnot' Hafter.
  apply steps_app_inv in Hc2 as (sd & ld & ld' & Hd & Hrest & ->).
  inversion Hrest as [|? ? sf lf ? ? lf' Hstep' Hrest']; subst. clear Hrest.
  pose proof (steps_snapshot _ _ _ _ _ Hd) as Hsd.
  pose proof (steps_write_ok _ _ _ _ _ Hd Hwb) as Hwd.
  destruct (step_load_inv _ _ _ _ _ df' Hstep' Hc') as [_ Hstf];
    [by rewrite Hsd, Hsb, Hsa | done | by apply write_ok_head |].
  rewrite (steps_store_frame _ _ _ _ _ _ Hrest') by done.
  rewrite Hstf. apply lookup_insert_eq.
Qed.

(** ** The missing directory *)

Lemma load_report_app (l1 l2 : list Message) :
  load_report (l1 ++ l2) = load_report l1 ++ load_report l2.
Proof. apply List.filter_app. Qed.

(** C6.  A missing directory is fatal and without side effect: both scripts
    then show the message that the data directory was not found and do
    nothing else; no table changes, nothing is read or sent, the report gains
    no line and the session keeps its keys. *)
Theorem missing_directory_is_fatal (fs : FileSystem) (s : State) :
  data_dir fs = None →
  ingest_all fs s = (Ok tt, show (DataDirNotFound data_folder) s)
  ∧ DataInjection.main fs s = (Ok tt, show (DataDirNotFound data_folder) s)
  ∧ (let s' := (ingest_all fs s).2 in
     shown s' = shown s ++ [DataDirNotFound "data"]
     ∧ load_report (shown s') = load_report (shown s)
     ∧ store s' = store s
     ∧ events s' = events s
     ∧ write_faults s' = write_faults s
     ∧ session_state s' = session_state s).
Proof.
  intros Hdir. rewrite ingest_all_no_dir by done.
  split; [done |]. split.
  - unfold DataInjection.main, os_path_exists. by rewrite Hdir.
  - cbn [snd]. state_simpl. repeat split; try done.
    rewrite load_report_app. cbn. by rewrite app_nil_r.
Qed.

(** ** Table names *)

Lemma lower_app (a b : string) : lower (a +:+ b) = lower a +:+ lower b.
Proof.
  induction a as [|c a IH]; [done |].
  rewrite str_app_cons. cbn [lower]. by rewrite IH.
Qed.

Lemma lower_length (a : string) : String.length (lower a) = String.length a.
Proof. induction a as [|c a IH]; [done |]. cbn. by rewrite IH. Qed.

Lemma str_take_app (b suffix : string) :
  str_take (String.length b) (b +:+ suffix) = b.
Proof.
  induction b as [|c b IH]; [by destruct suffix |].
  rewrite str_app_cons. cbn. by rewrite IH.
Qed.

Lemma spec_table_name_suffix (base : string) :
  spec_table_name (base +:+ ".csv") = lower base.
Proof.
  unfold spec_table_name, strip_extension.
  assert (endswith (lower (base +:+ ".csv")) ".csv" = true) as ->.
  { apply endswith_spec. exists (lower base). by rewrite lower_app. }
  rewrite str_length_app.
  replace (String.length base + String.length ".csv" - 4) with (String.length base)
    by (cbn; lia).
  by rewrite str_take_app.
Qed.

(** C7, as amended.  Name derivation: the filter accepts exactly the names
    that end in [".csv"], in lower case, so no name with another four
    character ending is accepted; for an accepted name in which [".csv"]
    occurs only as that ending, the derived table name is the name without
    the ending, lower-cased, as the specification words it. *)
Theorem table_name_derivation (filename : string) :
  (is_candidate filename = true ↔ ∃ base, filename = base +:+ ".csv")
  ∧ (∀ base ext, filename = base +:+ ext → String.length ext = 4%nat →
                 ext ≠ ".csv" → is_candidate filename = false)
  ∧ (∀ base, filename = base +:+ ".csv" → str_contains ".csv" base = false →
             derive_table_name filename = lower base
             ∧ spec_table_name filename = lower base).
Proof.
  split; [apply endswith_spec |]. split.
  - intros base ext -> Hlen Hext.
    destruct (is_candidate (base +:+ ext)) eqn:Hc; [| done].
    apply endswith_spec in Hc as [b Hb].
    apply str_app_inv_suffix in Hb; [done | by rewrite Hlen].
  - intros base -> Hbase. split; [| apply spec_table_name_suffix].
    unfold derive_table_name. by rewrite replace_csv_suffix.
Qed.

(** C7, as stated, fails on the name of its own example: [Orders.CSV] is not
    mapped to the lower-cased name without its extension. *)
Lemma mixed_case_extension_counterexample :
  ¬ (is_candidate "Orders.CSV" = true
     ∨ derive_table_name "Orders.CSV" = spec_table_name "Orders.CSV").
Proof. vm_compute. intros [H | H]; discriminate. Qed.

(** The replacement removes [".csv"] wherever it occurs, not only at the
    end. *)
Lemma replace_strips_every_occurrence :
  is_candidate "a.csv.csv" = true
  ∧ derive_table_name "a.csv.csv" = "a"
  ∧ spec_table_name "a.csv.csv" = "a.csv".
Proof. vm_compute. repeat split; reflexivity. Qed.

(** ** Loading one file *)

(** C8.  Row-count fidelity: when a candidate that is not in the snapshot
    parses into [N] data rows and its write is not refused, the line shown
    for it is [Loaded] with row count [N] and the table of its name then
    holds exactly the parsed rows, [N] of them; the same holds for
    [load_csv_to_db] of [data_injection.py] on arguments it has not seen. *)
Theorem row_count_fidelity (fs : FileSystem) (f : string) (fl : list string)
    (s : State) (df : DataFrame) :
  conn_ok s →
  is_candidate f = true →
  derive_table_name f ∉ snapshot s →
  csv_content fs (os_path_join data_folder f) = inr df →
  head (write_faults s) = None ∨ head (write_faults s) = Some None →
  (∃ s', process_file fs f fl s = (Ok (fl ++ [derive_table_name f]), s')
         ∧ shown s' = shown s ++ [Loaded (derive_table_name f) (List.length (rows df))]
         ∧ store s' !! derive_table_name f = Some df
         ∧ (∃ t, store s' !! derive_table_name f = Some t
                 ∧ List.length (rows t) = List.length (rows df)))
  ∧ (cache_data s !! (os_path_join data_folder f, derive_table_name f) = None →
     ∃ s', DataInjection.load_csv_to_db fs (os_path_join data_folder f)
             (derive_table_name f) s
           = (Ok (Loaded (derive_table_name f) (List.length (rows df))), s')
           ∧ store s' !! derive_table_name f = Some df).
Proof.
  intros Hok Hc Hs Hcsv Hw. split.
  - destruct (process_file_step fs f fl s Hok) as (s' & lines & Heq & Hstep).
    destruct (step_load_inv _ _ _ _ _ df Hstep Hc Hs Hcsv Hw) as [-> Hst].
    exists s'. rewrite Heq. split; [done |].
    rewrite (step_shown _ _ _ _ _ Hstep), Hst, lookup_insert_eq.
    repeat split; try done. by exists df.
  - intros Hcache. unfold DataInjection.load_csv_to_db. rewrite Hcache.
    unfold DataInjection.load_csv_to_db_body, bind, pd_read_csv. rewrite Hcsv.
    rewrite engine_autocommit_to_sql.
    assert (head (write_faults (log [EvReadCsv (os_path_join data_folder f)] s))
            = head (write_faults s)) as -> by done.
    destruct Hw as [-> | ->]; eexists; (split; [done |]); state_simpl;
      apply lookup_insert_eq.
Qed.

(** C10.  Replace semantics of the load primitive: a write that is not
    refused leaves under the table name exactly the file, whatever the table
    held before and whatever else the store holds, which it leaves alone; a
    second write of the same file, refused or not, leaves the store as the
    first left it. *)
Theorem load_replace_idempotent (table_name : string) (df : DataFrame) (s : State) :
  head (write_faults s) = None ∨ head (write_faults s) = Some None →
  let s1 := (engine_begin (to_sql table_name df) s).2 in
  let s2 := (engine_begin (to_sql table_name df) s1).2 in
  (engine_begin (to_sql table_name df) s).1 = Ok tt
  ∧ store s1 = <[table_name := df]> (store s)
  ∧ store s1 !! table_name = Some df
  ∧ (∀ n, n ≠ table_name → store s1 !! n = store s !! n)
  ∧ store s2 = store s1.
Proof.
  intros Hw s1 s2. subst s2 s1. rewrite !engine_begin_to_sql.
  assert ((match head (write_faults s) with
           | Some (Some (k, e)) => (Raise e, rolled_back table_name df k s)
           | _ => (Ok tt, committed table_name df s)
           end) = (Ok tt, committed table_name df s)) as ->
    by (destruct Hw as [-> | ->]; done).
  cbn [fst snd]. split; [done |]. split; [done |].
  split; [apply lookup_insert_eq |]. split.
  - intros n Hn. state_simpl. by apply lookup_insert_ne.
  - destruct (head (write_faults (committed table_name df s))) as [[[k e]|]|];
      cbn [snd]; state_simpl; try done; by rewrite insert_insert_eq.
Qed.

(** ** The session flag *)

(** Whatever happens to a file, the loop leaves [st.session_state] alone. *)
Lemma process_file_session (fs : FileSystem) (f : string) (fl : list string) (s : State) :
  session_state (process_file fs f fl s).2 = session_state s.
Proof.
  unfold process_file. destruct (endswith f ".csv"); [| done].
  unfold bind at 1, get_table_names, bind at 1, checkout.
  destruct (head (conn_faults s)) as [[e|]|]; [done | |].
  all: cbn [info_cache set_conn_faults].
  all: destruct (info_cache s); case_bool_decide; try done.
  all: unfold try_except, bind at 1, pd_read_csv;
    destruct (csv_content fs _) as [e|df]; [done |];
    unfold bind at 1; rewrite engine_begin_to_sql;
    match goal with
    | |- context [head (write_faults ?x)] =>
        destruct (head (write_faults x)) as [[[k e]|]|]
    end; done.
Qed.

Lemma for_each_file_session (fs : FileSystem) (l : list string) (fl : list string)
    (s : State) :
  session_state (for_each_file fs l fl s).2 = session_state s.
Proof.
  revert fl s. induction l as [|f l IH]; intros fl s; [done |].
  cbn [for_each_file]. unfold bind.
  pose proof (process_file_session fs f fl s) as Hf.
  destruct (process_file fs f fl s) as [[fl'|e] s1]; cbn [snd] in Hf.
  - by rewrite IH.
  - done.
Qed.

(** The flag after lines 25 to 51: set when the directory exists and the loop
    came to its end, untouched otherwise. *)
Lemma ingest_all_data_loaded (fs : FileSystem) (s : State) :
  ss_data_loaded (session_state (ingest_all fs s).2)
  = match (ingest_all fs s).1 with
    | Ok _ => if os_path_exists fs then Some true else ss_data_loaded (session_state s)
    | Raise _ => ss_data_loaded (session_state s)
    end.
Proof.
  unfold ingest_all. destruct (os_path_exists fs); [| done]. cbn [negb].
  unfold bind. pose proof (for_each_file_session fs (os_listdir fs) [] s) as Hl.
  destruct (for_each_file fs (os_listdir fs) [] s) as [[fl|e] s1]; cbn [snd] in Hl.
  - done.
  - cbn [fst snd]. by rewrite Hl.
Qed.

Lemma ingestion_body_data_loaded (env : Env) (fs : FileSystem) (s : State) :
  ss_data_loaded (session_state (ingestion_body env fs s).2)
  = match (ingestion_body env fs s).1 with
    | Ok _ => if os_path_exists fs then Some true else ss_data_loaded (session_state s)
    | Raise _ => ss_data_loaded (session_state s)
    end.
Proof.
  unfold ingestion_body, st_secrets, create_engine, inspect, checkout.
  unfold bind, ret, raise, modify.
  destruct (secrets env !! "DB_URL") as [url|]; [| done].
  destruct (engine_error env url) as [e|]; [done |].
  cbn [conn_faults set_session].
  destruct (head (conn_faults s)) as [[e|]|]; [done | |];
    rewrite ingest_all_data_loaded; done.
Qed.

Lemma ingestion_body_ok (env : Env) (fs : FileSystem) (s : State) :
  conn_ok s →
  is_Some (secrets env !! "DB_URL") →
  (∀ url, engine_error env url = None) →
  is_Some (data_dir fs) →
  (ingestion_body env fs s).1 = Ok tt.
Proof.
  intros Hok [url Hurl] Heng [listing Hdir].
  unfold ingestion_body, st_secrets, create_engine. rewrite Hurl.
  unfold bind, ret, modify. rewrite Heng.
  rewrite inspect_ok by done.
  match goal with
  | |- (ingest_all fs ?x).1 = _ =>
      destruct (ingest_all_steps fs listing x) as (s' & lines & _ & ->); [| done | done]
  end.
  apply conn_ok_after_inspect. exact Hok.
Qed.

(** C9.  The run-once gate: with [data_loaded] in the session the script does
    not run the ingestion block at all; without it the block runs, always
    ends normally, and leaves [data_loaded] set to [True] exactly when the
    body of its [try] came to its end and the directory exists, so the flag
    stays unset when the directory is missing or an error reaches one of the
    two handlers, and the next rerun enters the block again.  When the
    secret is there, the engine is accepted, the inspector keeps its
    connection and the directory exists, the flag is set whatever became of
    the files. *)
Theorem run_once_gate (env : Env) (fs : FileSystem) (s : State) :
  (is_Some (ss_data_loaded (session_state s)) → app_script env fs s = (Ok tt, s))
  ∧ (ss_data_loaded (session_state s) = None →
     app_script env fs s = ingestion_block env fs s
     ∧ (app_script env fs s).1 = Ok tt
     ∧ ss_data_loaded (session_state (app_script env fs s).2)
       = match (ingestion_body env fs s).1 with
         | Ok _ => if os_path_exists fs then Some true else None
         | Raise _ => None
         end)
  ∧ (ss_data_loaded (session_state s) = None →
     conn_ok s →
     is_Some (secrets env !! "DB_URL") →
     (∀ url, engine_error env url = None) →
     is_Some (data_dir fs) →
     ss_data_loaded (session_state (app_script env fs s).2) = Some true).
Proof.
  assert (ss_data_loaded (session_state s) = None →
          app_script env fs s = ingestion_block env fs s
          ∧ (app_script env fs s).1 = Ok tt
          ∧ ss_data_loaded (session_state (app_script env fs s).2)
            = match (ingestion_body env fs s).1 with
              | Ok _ => if os_path_exists fs then Some true else None
              | Raise _ => None
              end) as Hblock.
  { intros Hnone. unfold app_script. rewrite Hnone. split; [done |].
    unfold ingestion_block, try_except.
    pose proof (ingestion_body_data_loaded env fs s) as Hb. rewrite Hnone in Hb.
    destruct (ingestion_body env fs s) as [[[]|e] s1]; cbn [fst snd] in *.
    - done.
    - by destruct e. }
  split; [| split; [exact Hblock |]].
  - intros [b Hb]. unfold app_script. by rewrite Hb.
  - intros Hnone Hok Hurl Heng Hdir.
    destruct (Hblock Hnone) as (_ & _ & ->).
    rewrite ingestion_body_ok by done.
    unfold os_path_exists. by destruct Hdir as [l ->].
Qed.

(** ** The theorems on the example directory *)

Lemma ingest_twice_idempotent_witness :
  let s1 := (run_ingest ex_fs (initial_state ∅ [] [])).2 in
  let s2 := (run_ingest ex_fs (initial_state (store s1) [] [])).2 in
  load_report (shown s1) !! 0%nat = Some (Loaded "orders" 3)
  ∧ load_report (shown s2) !! 0%nat = Some (Skipped "orders")
  ∧ store s2 = store s1.
Proof.
  intros s1 s2.
  pose proof (ingest_twice_idempotent ex_fs [] []) as H. cbv zeta in H.
  destruct H as (H1 & H2 & H3).
  split; [vm_compute; reflexivity |].
  split; [apply (H1 0%nat "orders" 3%nat); vm_compute; reflexivity |].
  apply H3. constructor.
Defined.

Lemma skip_semantics_witness :
  let s' := (run_ingest ex_fs (initial_state {["orders" := df_orders_new]} [] [])).2 in
  load_report (shown s') !! 0%nat = Some (Skipped (derive_table_name "orders.csv"))
  ∧ (EvReadCsv (os_path_join data_folder "orders.csv") ∉ events s')
  ∧ (∀ st, EvStmt st ∈ events s' → stmt_table st ≠ derive_table_name "orders.csv")
  ∧ store s' !! derive_table_name "orders.csv"
    = ({["orders" := df_orders_new]} : gmap string DataFrame) !! derive_table_name "orders.csv".
Proof.
  apply (skip_semantics ex_fs ["orders.csv"; "notes.txt"; "Orders.csv"; "broken.csv"]
           {["orders" := df_orders_new]} [] 0%nat "orders.csv").
  - reflexivity.
  - vm_compute. reflexivity.
  - exists df_orders_new. vm_compute. reflexivity.
Defined.


Lemma write_failure_rolls_back_witness :
  ∃ s' stmts,
    process_file ex_fs "orders.csv" [] (initial_state ∅ [] [Some (2, ex_interrupted)])
    = (Ok [], s')
    ∧ shown s' = [] ++ [Failed "orders.csv" ex_interrupted]
    ∧ store s' = ∅
    ∧ tx s' = None
    ∧ events s' = [] ++ catalog_events "orders.csv" (initial_state ∅ [] [Some (2, ex_interrupted)])
                  ++ [EvReadCsv (os_path_join data_folder "orders.csv"); EvBegin]
                  ++ (EvStmt <$> stmts) ++ [EvRollback].
Proof.
  apply (write_failure_rolls_back ex_fs "orders.csv" []
           (initial_state ∅ [] [Some (2, ex_interrupted)]) df_orders 2 ex_interrupted).
  - constructor.
  - vm_compute. reflexivity.
  - apply not_elem_of_nil.
  - reflexivity.
  - reflexivity.
Defined.

Lemma failure_isolated_witness :
  let s0 := initial_state ∅ [] [] in
  let sa := (for_each_file ex_fs ["notes.txt"] [] s0).2 in
  let sb := (for_each_file ex_fs (["notes.txt"] ++ ["broken.csv"]) [] s0).2 in
  ∃ fl' s' r1 r2,
    for_each_file ex_fs (["notes.txt"] ++ "broken.csv" :: ["orders.csv"; "Orders.csv"]) [] s0
    = (Ok fl', s')
    ∧ shown s' = shown s0 ++ r1 ++ Failed "broken.csv" (OtherException "ParserError") :: r2
    ∧ Forall2 (entry_ok ex_fs (snapshot s0)) (candidates ["notes.txt"]) r1
    ∧ Forall2 (entry_ok ex_fs (snapshot s0)) (candidates ["orders.csv"; "Orders.csv"]) r2
    ∧ List.length (r1 ++ Failed "broken.csv" (OtherException "ParserError") :: r2)
      = List.length
          (candidates (["notes.txt"] ++ "broken.csv" :: ["orders.csv"; "Orders.csv"]))
    ∧ fl' = loaded_names (r1 ++ r2)
    ∧ shown sb = shown sa ++ [Failed "broken.csv" (OtherException "ParserError")]
    ∧ store sb = store sa
    ∧ for_each_file ex_fs ["orders.csv"; "Orders.csv"] (loaded_names r1) sb = (Ok fl', s')
    ∧ (∃ t, for_each_file ex_fs ["orders.csv"; "Orders.csv"] (loaded_names r1)
              (set_write_faults (write_faults sb) sa)
            = (Ok fl', t)
            ∧ shown t = shown sa ++ r2
            ∧ store t = store s')
    ∧ (∀ n k, Loaded n k ∈ r1 ++ r2 → is_Some (store s' !! n))
    ∧ Forall2 (entry_no_fault ex_fs (snapshot s0)) (candidates ["orders.csv"; "Orders.csv"]) r2
    ∧ store s' !! derive_table_name "Orders.csv" = Some df_orders_new.
Proof.
  intros s0 sa sb.
  destruct (failure_isolated ex_fs ["notes.txt"] ["orders.csv"; "Orders.csv"] "broken.csv"
              s0 (OtherException "ParserError"))
    as (fl' & s' & r1 & r2 & H1 & H2 & H3 & H4 & H5 & H6 & H7 & H8 & H9 & H10 & H11 & H12).
  - constructor.
  - vm_compute. reflexivity.
  - apply not_elem_of_nil.
  - left. reflexivity.
  - exists fl', s', r1, r2.
    destruct H12 as [H12 H13]; [constructor |].
    do 11 (split; [assumption |]). split; [assumption |].
    apply (H13 ["orders.csv"] "Orders.csv" [] df_orders_new).
    + reflexivity.
    + vm_compute. reflexivity.
    + reflexivity.
    + apply not_elem_of_nil.
    + constructor.
Defined.

Lemma missing_directory_is_fatal_witness :
  ingest_all ex_no_dir (initial_state ∅ [] [])
  = (Ok tt, show (DataDirNotFound data_folder) (initial_state ∅ [] []))
  ∧ DataInjection.main ex_no_dir (initial_state ∅ [] [])
    = (Ok tt, show (DataDirNotFound data_folder) (initial_state ∅ [] []))
  ∧ (let s' := (ingest_all ex_no_dir (initial_state ∅ [] [])).2 in
     shown s' = shown (initial_state ∅ [] []) ++ [DataDirNotFound "data"]
     ∧ load_report (shown s') = load_report (shown (initial_state ∅ [] []))
     ∧ store s' = store (initial_state ∅ [] [])
     ∧ events s' = events (initial_state ∅ [] [])
     ∧ write_faults s' = write_faults (initial_state ∅ [] [])
     ∧ session_state s' = session_state (initial_state ∅ [] [])).
Proof.
  apply (missing_directory_is_fatal ex_no_dir (initial_state ∅ [] [])). reflexivity.
Defined.

Lemma table_name_derivation_witness :
  is_candidate "Orders.csv" = true
  ∧ is_candidate "Orders.CSV" = false
  ∧ derive_table_name "Orders.csv" = lower "Orders"
  ∧ spec_table_name "Orders.csv" = lower "Orders".
Proof.
  destruct (table_name_derivation "Orders.csv") as (H1 & _ & H3).
  destruct (table_name_derivation "Orders.CSV") as (_ & H2 & _).
  split; [apply H1; by exists "Orders" |].
  split; [apply (H2 "Orders" ".CSV"); [reflexivity | reflexivity | discriminate] |].
  apply (H3 "Orders"); reflexivity.
Defined.

Lemma row_count_fidelity_witness :
  (∃ s', process_file ex_fs "orders.csv" [] (initial_state ∅ [] [])
         = (Ok ([] ++ [derive_table_name "orders.csv"]), s')
         ∧ shown s' = [] ++ [Loaded (derive_table_name "orders.csv") 3]
         ∧ store s' !! derive_table_name "orders.csv" = Some df_orders
         ∧ (∃ t, store s' !! derive_table_name "orders.csv" = Some t
                 ∧ List.length (rows t) = 3%nat))
  ∧ ∃ s', DataInjection.load_csv_to_db ex_fs (os_path_join data_folder "orders.csv")
            (derive_table_name "orders.csv") (initial_state ∅ [] [])
          = (Ok (Loaded (derive_table_name "orders.csv") 3), s')
          ∧ store s' !! derive_table_name "orders.csv" = Some df_orders.
Proof.
  destruct (row_count_fidelity ex_fs "orders.csv" [] (initial_state ∅ [] []) df_orders)
    as [H1 H2].
  - constructor.
  - vm_compute. reflexivity.
  - apply not_elem_of_nil.
  - reflexivity.
  - left. reflexivity.
  - split; [exact H1 | apply H2; reflexivity].
Defined.

Lemma run_once_gate_witness :
  app_script ex_env ex_fs
    (set_session (mkSession (Some true) (Some ["orders"]) (Some "postgresql://host/db"))
       (initial_state ∅ [] []))
  = (Ok tt, set_session (mkSession (Some true) (Some ["orders"]) (Some "postgresql://host/db"))
              (initial_state ∅ [] []))
  ∧ ss_data_loaded (session_state
      (app_script ex_env ex_fs (initial_state ∅ [] [Some (0, ex_interrupted)])).2)
    = Some true
  ∧ ss_data_loaded (session_state
      (app_script ex_env ex_no_dir (initial_state ∅ [] [])).2) = None
  ∧ ss_data_loaded (session_state
      (app_script ex_env ex_fs (initial_state ∅ [Some ex_interrupted] [])).2) = None.
Proof.
  split; [| split; [| split]].
  - apply (run_once_gate ex_env ex_fs). by exists true.
  - apply (run_once_gate ex_env ex_fs (initial_state ∅ [] [Some (0, ex_interrupted)])).
    + reflexivity.
    + constructor.
    + exists "postgresql://host/db". vm_compute. reflexivity.
    + reflexivity.
    + by eexists.
  - destruct (run_once_gate ex_env ex_no_dir (initial_state ∅ [] [])) as (_ & H & _).
    destruct (H eq_refl) as (_ & _ & ->). vm_compute. reflexivity.
  - destruct (run_once_gate ex_env ex_fs (initial_state ∅ [Some ex_interrupted] []))
      as (_ & H & _).
    destruct (H eq_refl) as (_ & _ & ->). vm_compute. reflexivity.
Defined.

Lemma load_replace_idempotent_witness :
  let s := initial_state {["orders" := df_orders]} [] [None; Some (1, ex_interrupted)] in
  let s1 := (engine_begin (to_sql "orders" df_orders_new) s).2 in
  let s2 := (engine_begin (to_sql "orders" df_orders_new) s1).2 in
  (engine_begin (to_sql "orders" df_orders_new) s).1 = Ok tt
  ∧ store s1 = <["orders" := df_orders_new]> (store s)
  ∧ store s1 !! "orders" = Some df_orders_new
  ∧ (∀ n, n ≠ "orders" → store s1 !! n = store s !! n)
  ∧ store s2 = store s1.
Proof.
  intros s.
  apply (load_replace_idempotent "orders" df_orders_new s). right. reflexivity.
Defined.

(** * Further properties of the ingestion code *)

(** ** What a run leaves in the session and in the store *)

Lemma elem_of_loaded_names (n : string) (lines : list Message) :
  n ∈ loaded_names lines ↔ ∃ k, Loaded n k ∈ lines.
Proof.
  unfold loaded_names. rewrite list_elem_of_omap. split.
  - intros (m & Hin & Hm). destruct m; try discriminate.
    injection Hm as ->. by eexists.
  - intros (k & Hin). by exists (Loaded n k).
Qed.

(** X1.  After a run in which the directory exists, [files_loaded] in the
    session is the list of the table names of the [Loaded] lines of the
    report, in their order; each of them was absent from the database when
    the run started and is there when it ends. *)
Theorem files_loaded_lists_loaded_tables (fs : FileSystem) (listing : list string)
    (db : gmap string DataFrame) (wf : list (option (nat * Exception))) :
  data_dir fs = Some listing →
  let s' := (run_ingest fs (initial_state db [] wf)).2 in
  ss_data_loaded (session_state s') = Some true
  ∧ ss_files_loaded (session_state s') = Some (loaded_names (load_report (shown s')))
  ∧ (∀ n, n ∈ loaded_names (load_report (shown s')) →
          db !! n = None ∧ is_Some (store s' !! n)).
Proof.
  intros Hdir s'.
  destruct (run_ingest_steps fs listing (initial_state db [] wf))
    as (t & lines & Hsteps & Heq); [by constructor | done |].
  pose proof (steps_lines _ _ _ _ _ Hsteps) as Hlines.
  pose proof (steps_shown _ _ _ _ _ Hsteps) as Hshown.
  assert (shown s' = lines ∧ store s' = store t
          ∧ session_state s' = mkSession (Some true) (Some (loaded_names lines))
                                 (ss_engine (session_state t))) as (Hs1 & Hs2 & Hs3).
  { subst s'. rewrite Heq. cbn [snd]. state_simpl. by rewrite Hshown. }
  rewrite Hs1, Hs2, Hs3, (load_report_lines _ _ _ _ Hlines). cbn [ss_data_loaded ss_files_loaded].
  split; [done |]. split; [done |].
  intros n [k Hin]%elem_of_loaded_names. split.
  - apply list_elem_of_lookup in Hin as [i Hi].
    destruct (Forall2_lookup_r _ _ _ _ _ Hlines Hi) as (f & _ & Hm).
    unfold entry_ok in Hm. case_bool_decide as Hnames; [done |].
    assert (n = derive_table_name f) as ->.
    { destruct (csv_content _ _); [done |]. destruct Hm as [Hm | [e Hm]]; congruence. }
    apply eq_None_not_Some. intros Hsome. apply Hnames. by apply table_names_elem.
  - by eapply steps_loaded_present.
Qed.

(** A relation between the state before and after that every loop body
    keeps is kept by the loop. *)
Lemma for_each_file_inv (fs : FileSystem) (R : State → State → Prop) :
  (∀ s, R s s) →
  (∀ s1 s2 s3, R s1 s2 → R s2 s3 → R s1 s3) →
  (∀ f fl s, R s (process_file fs f fl s).2) →
  ∀ l fl s, R s (for_each_file fs l fl s).2.
Proof.
  intros Hrefl Htrans Hbody l. induction l as [|f l IH]; intros fl s; [apply Hrefl |].
  cbn [for_each_file]. unfold bind.
  pose proof (Hbody f fl s) as Hf.
  destruct (process_file fs f fl s) as [[fl'|e] s1]; cbn [snd] in Hf |- *.
  - eapply Htrans; [exact Hf | apply IH].
  - exact Hf.
Qed.

(** The loop body written out: the state it leaves, in each of its
    cases. *)
Lemma process_file_cases (fs : FileSystem) (f : string) (fl : list string) (s : State) :
  ∃ r s', process_file fs f fl s = (r, s')
    ∧ (s' = s
       ∨ s' = set_conn_faults (tail (conn_faults s)) s
       ∨ (∃ m, s' = show m (after_names s))
       ∨ (∃ m, s' = show m (log [EvReadCsv (os_path_join data_folder f)] (after_names s)))
       ∨ (∃ m df k, s' = show m (rolled_back (derive_table_name f) df k
                           (log [EvReadCsv (os_path_join data_folder f)] (after_names s))))
       ∨ (∃ m df, s' = show m (committed (derive_table_name f) df
                           (log [EvReadCsv (os_path_join data_folder f)] (after_names s))))).
Proof.
  unfold process_file. destruct (endswith f ".csv").
  2:{ eexists _, _. split; [reflexivity | by left]. }
  fold (derive_table_name f).
  unfold bind at 1, get_table_names, bind at 1, checkout.
  destruct (head (conn_faults s)) as [[e|]|] eqn:Hh.
  { eexists _, _. split; [reflexivity | right; by left]. }
  all: assert ((match info_cache (set_conn_faults (tail (conn_faults s)) s) with
                | Some names => (Ok names, set_conn_faults (tail (conn_faults s)) s)
                | None =>
                    (Ok (table_names (store (set_conn_faults (tail (conn_faults s)) s))),
                     log [EvCatalogQuery]
                       (set_info_cache
                          (Some (table_names (store (set_conn_faults (tail (conn_faults s)) s))))
                          (set_conn_faults (tail (conn_faults s)) s)))
                end) = (Ok (snapshot s), after_names s)) as ->
    by (unfold after_names, snapshot; cbn [info_cache set_conn_faults store];
        by destruct (info_cache s)).
  all: case_bool_decide;
    [eexists _, _; split; [reflexivity | right; right; left; by eexists] |].
  all: unfold try_except, bind at 1, pd_read_csv;
    destruct (csv_content fs _) as [e|df];
    [eexists _, _; split; [reflexivity | right; right; right; left; by eexists] |];
    unfold bind at 1; rewrite engine_begin_to_sql;
    match goal with
    | |- context [head (write_faults ?x)] =>
        destruct (head (write_faults x)) as [[[k e]|]|]
    end.
  all: eexists _, _; (split; [reflexivity |]).
  all: try (right; right; right; right; left; by eexists _, _, _).
  all: right; right; right; right; right; by eexists _, _.
Qed.

Lemma process_file_store_mono (fs : FileSystem) (f : string) (fl : list string)
    (s : State) (n : string) :
  is_Some (store s !! n) → is_Some (store (process_file fs f fl s).2 !! n).
Proof.
  intros Hn.
  destruct (process_file_cases fs f fl s) as (r & s' & -> & Hcases). cbn [snd].
  destruct Hcases as [-> | [-> | [[m ->] | [[m ->] | [(m & df & k & ->) | (m & df & ->)]]]]];
    state_simpl; try done.
  rewrite lookup_insert. case_decide; [by eexists | done].
Qed.

Lemma process_file_tx (fs : FileSystem) (f : string) (fl : list string) (s : State) :
  tx s = None → tx (process_file fs f fl s).2 = None.
Proof.
  intros Htx.
  assert (tx (after_names s) = None) as Ht.
  { unfold after_names. by destruct (info_cache s). }
  destruct (process_file_cases fs f fl s) as (r & s' & -> & Hcases). cbn [snd].
  destruct Hcases as [-> | [-> | [[m ->] | [[m ->] | [(m & df & k & ->) | (m & df & ->)]]]]];
    state_simpl; done.
Qed.

(** X2.  The ingestion loop never removes a table, and never leaves a
    transaction open: whatever the files, the faults of the database and the
    failures of the inspector's connection, every table that was in the
    store before the loop is in it afterwards, and no transaction is open
    when the loop ends if none was open when it began. *)
Theorem loop_keeps_tables (fs : FileSystem) (l : list string) (fl : list string)
    (s : State) :
  (∀ n, is_Some (store s !! n) → is_Some (store (for_each_file fs l fl s).2 !! n))
  ∧ (tx s = None → tx (for_each_file fs l fl s).2 = None).
Proof.
  split.
  - intros n.
    apply (for_each_file_inv fs
             (λ s s', is_Some (store s !! n) → is_Some (store s' !! n))); auto.
    intros f fl' s'. apply process_file_store_mono.
  - apply (for_each_file_inv fs (λ s s', tx s = None → tx s' = None)); auto.
    intros f fl' s'. apply process_file_tx.
Qed.

Lemma loop_keeps_tables_witness :
  is_Some (store (for_each_file ex_fs ["orders.csv"; "broken.csv"] []
                    (initial_state {["users" := df_orders]} [] [])).2 !! "users")
  ∧ tx (for_each_file ex_fs ["orders.csv"; "broken.csv"] []
          (initial_state {["users" := df_orders]} [] [Some (1, ex_interrupted)])).2 = None.
Proof.
  split.
  - apply (loop_keeps_tables ex_fs). exists df_orders. vm_compute. reflexivity.
  - apply (loop_keeps_tables ex_fs). reflexivity.
Defined.

(** X3.  A run writes no table but those its candidates derive: a table
    whose name no candidate of the listing derives holds after the run what
    it held before. *)
Theorem only_candidate_tables_written (fs : FileSystem) (listing : list string)
    (db : gmap string DataFrame) (wf : list (option (nat * Exception))) (n : string) :
  data_dir fs = Some listing →
  Forall (λ f, derive_table_name f ≠ n) (candidates listing) →
  store (run_ingest fs (initial_state db [] wf)).2 !! n = db !! n.
Proof.
  intros Hdir Hall.
  destruct (run_ingest_steps fs listing (initial_state db [] wf))
    as (t & lines & Hsteps & Heq); [by constructor | done |].
  rewrite Heq. cbn [snd]. state_simpl.
  by rewrite (steps_store_frame _ _ _ _ _ n Hsteps).
Qed.

Lemma only_candidate_tables_written_witness :
  store (run_ingest ex_fs (initial_state {["users" := df_orders]} [] [])).2 !! "users"
  = ({["users" := df_orders]} : gmap string DataFrame) !! "users".
Proof.
  apply (only_candidate_tables_written ex_fs
           ["orders.csv"; "notes.txt"; "Orders.csv"; "broken.csv"]).
  - reflexivity.
  - vm_compute. repeat constructor; discriminate.
Defined.

(** ** Files that are no candidates, and listings without candidates *)

Lemma process_file_not_candidate (fs : FileSystem) (f : string) (fl : list string)
    (s : State) :
  is_candidate f = false → process_file fs f fl s = (Ok fl, s).
Proof. unfold is_candidate, process_file. by intros ->. Qed.

Lemma di_process_file_not_candidate (fs : FileSystem) (f : string) (fl : list string)
    (s : State) :
  is_candidate f = false → DataInjection.process_file fs f fl s = (Ok fl, s).
Proof. unfold is_candidate, DataInjection.process_file. by intros ->. Qed.

Lemma for_each_file_candidates (fs : FileSystem) (l : list string) (fl : list string)
    (s : State) :
  for_each_file fs l fl s = for_each_file fs (candidates l) fl s.
Proof.
  revert fl s. induction l as [|f l IH]; intros fl s; [done |].
  rewrite candidates_cons. destruct (is_candidate f) eqn:Hc.
  - cbn [for_each_file]. unfold bind.
    destruct (process_file fs f fl s) as [[fl'|e] s1]; [apply IH | done].
  - cbn [for_each_file]. unfold bind.
    rewrite process_file_not_candidate by done. apply IH.
Qed.

Lemma di_for_each_file_candidates (fs : FileSystem) (l : list string) (fl : list string)
    (s : State) :
  DataInjection.for_each_file fs l fl s = DataInjection.for_each_file fs (candidates l) fl s.
Proof.
  revert fl s. induction l as [|f l IH]; intros fl s; [done |].
  rewrite candidates_cons. destruct (is_candidate f) eqn:Hc.
  - cbn [DataInjection.for_each_file]. unfold bind.
    destruct (DataInjection.process_file fs f fl s) as [[fl'|e] s1]; [apply IH | done].
  - cbn [DataInjection.for_each_file]. unfold bind.
    rewrite di_process_file_not_candidate by done. apply IH.
Qed.

(** X4.  Directory entries that do not end in [".csv"] are ignored
    altogether: in both scripts the loop over a listing does exactly what the
    loop over its candidates does, result and state. *)
Theorem loop_ignores_other_files (fs : FileSystem) (l : list string) (fl : list string)
    (s : State) :
  for_each_file fs l fl s = for_each_file fs (candidates l) fl s
  ∧ DataInjection.for_each_file fs l fl s
    = DataInjection.for_each_file fs (candidates l) fl s.
Proof. split; [apply for_each_file_candidates | apply di_for_each_file_candidates]. Qed.

(** X5.  A directory without candidates: [app.py] shows nothing, asks the
    database nothing, and still sets [data_loaded], with an empty
    [files_loaded]; [data_injection.py] shows its warning and does nothing
    else. *)
Theorem no_candidates_nothing_done (fs : FileSystem) (listing : list string) (s : State) :
  data_dir fs = Some listing →
  candidates listing = [] →
  ingest_all fs s
  = (Ok tt, set_session (mkSession (Some true) (Some []) (ss_engine (session_state s))) s)
  ∧ DataInjection.main fs s = (Ok tt, show NoCsvFilesFound s).
Proof.
  intros Hdir Hnone. split.
  - unfold ingest_all, os_path_exists, os_listdir. rewrite Hdir.
    cbn [negb from_option id]. unfold bind.
    by rewrite (for_each_file_candidates fs listing), Hnone.
  - unfold DataInjection.main, os_path_exists, os_listdir. rewrite Hdir.
    cbn [negb from_option id]. unfold bind.
    by rewrite (di_for_each_file_candidates fs listing), Hnone.
Qed.

Lemma no_candidates_nothing_done_witness :
  ingest_all (mkFileSystem (Some ["notes.txt"; "Orders.CSV"]) (csv_content ex_fs))
    (initial_state ∅ [] [])
  = (Ok tt, set_session (mkSession (Some true) (Some [])
                           (ss_engine (session_state (initial_state ∅ [] []))))
              (initial_state ∅ [] []))
  ∧ DataInjection.main (mkFileSystem (Some ["notes.txt"; "Orders.CSV"]) (csv_content ex_fs))
      (initial_state ∅ [] [])
    = (Ok tt, show NoCsvFilesFound (initial_state ∅ [] [])).
Proof.
  apply (no_candidates_nothing_done _ ["notes.txt"; "Orders.CSV"]).
  - reflexivity.
  - vm_compute. reflexivity.
Defined.

(** ** A connection lost in the middle of the loop *)

(** X6.  When the inspector loses its connection at a candidate, the loop of
    [app.py] stops there with that exception: the files before it stay
    handled, with their tables and their lines, and neither that file nor
    any file after it is read, written or reported. *)
Theorem connection_lost_stops_loop (fs : FileSystem) (l1 l2 : list string) (f : string)
    (fl fl1 : list string) (s s1 : State) (e : Exception) :
  for_each_file fs l1 fl s = (Ok fl1, s1) →
  is_candidate f = true →
  head (conn_faults s1) = Some (Some e) →
  for_each_file fs (l1 ++ f :: l2) fl s
  = (Raise e, set_conn_faults (tail (conn_faults s1)) s1)
  ∧ (let s' := (for_each_file fs (l1 ++ f :: l2) fl s).2 in
     store s' = store s1 ∧ shown s' = shown s1 ∧ events s' = events s1
     ∧ session_state s' = session_state s1).
Proof.
  intros H1 Hc Hh.
  assert (for_each_file fs (l1 ++ f :: l2) fl s
          = (Raise e, set_conn_faults (tail (conn_faults s1)) s1)) as ->; [| done].
  rewrite for_each_file_app, H1. cbn [for_each_file]. unfold bind at 1.
  assert (process_file fs f fl1 s1 = (Raise e, set_conn_faults (tail (conn_faults s1)) s1))
    as ->; [| done].
  unfold process_file. unfold is_candidate in Hc. rewrite Hc.
  unfold bind at 1, get_table_names, bind at 1, checkout. by rewrite Hh.
Qed.

Lemma connection_lost_stops_loop_witness :
  let s := initial_state ∅ [None; Some ex_interrupted] [] in
  let s1 := (for_each_file ex_fs ["orders.csv"; "notes.txt"] [] s).2 in
  for_each_file ex_fs (["orders.csv"; "notes.txt"] ++ "Orders.csv" :: ["broken.csv"]) [] s
  = (Raise ex_interrupted, set_conn_faults (tail (conn_faults s1)) s1)
  ∧ (let s' := (for_each_file ex_fs
                  (["orders.csv"; "notes.txt"] ++ "Orders.csv" :: ["broken.csv"]) [] s).2 in
     store s' = store s1 ∧ shown s' = shown s1 ∧ events s' = events s1
     ∧ session_state s' = session_state s1).
Proof.
  intros s s1.
  apply (connection_lost_stops_loop ex_fs ["orders.csv"; "notes.txt"] ["broken.csv"]
           "Orders.csv" [] ["orders"] s s1 ex_interrupted).
  - vm_compute. reflexivity.
  - vm_compute. reflexivity.
  - vm_compute. reflexivity.
Defined.

(** ** data_injection.py *)

Lemma di_load_miss (fs : FileSystem) (file n : string) (s : State) :
  cache_data s !! (file, n) = None →
  DataInjection.load_csv_to_db fs file n s =
  match csv_content fs file with
  | inl e => (Raise e, log [EvReadCsv file] s)
  | inr df =>
      match head (write_faults s) with
      | Some (Some (k, e)) => (Raise e, partly_written n df k (log [EvReadCsv file] s))
      | _ => (Ok (Loaded n (df_len df)),
              set_cache_data (<[(file, n) := Loaded n (df_len df)]> (cache_data s))
                (committed n df (log [EvReadCsv file] s)))
      end
  end.
Proof.
  intros Hmiss. unfold DataInjection.load_csv_to_db. rewrite Hmiss.
  unfold DataInjection.load_csv_to_db_body, bind at 1, pd_read_csv.
  destruct (csv_content fs file) as [e|df]; [done |].
  unfold bind at 1. rewrite engine_autocommit_to_sql.
  change (head (write_faults (log [EvReadCsv file] s))) with (head (write_faults s)).
  by destruct (head (write_faults s)) as [[[k e]|]|].
Qed.

(** Statements on one table leave the other tables alone. *)
Lemma exec_stmts_frame (n n' : string) (stmts : list Stmt) (db : gmap string DataFrame) :
  Forall (λ st, stmt_table st = n) stmts → n' ≠ n →
  foldl exec_stmt db stmts !! n' = db !! n'.
Proof.
  intros Hall Hne. revert db. induction Hall as [|st stmts Hst _ IH]; intros db; [done |].
  cbn [foldl]. rewrite IH. destruct st; cbn in Hst; subst; cbn [exec_stmt].
  - by apply lookup_delete_ne.
  - by apply lookup_insert_ne.
  - by apply lookup_alter_ne.
Qed.




(** X8.  The memo of [load_csv_to_db]: once a call has returned, a later
    call with the same arguments returns the same message and changes
    nothing, whatever the file holds by then; a call that raises is not
    remembered, so the next call runs the body again, and it leaves the
    tables of other names alone. *)
Theorem load_csv_to_db_memo (fs : FileSystem) (file n : string) (s : State) :
  (∀ m s1, DataInjection.load_csv_to_db fs file n s = (Ok m, s1) →
           ∀ fs', DataInjection.load_csv_to_db fs' file n s1 = (Ok m, s1))
  ∧ (∀ e s1, DataInjection.load_csv_to_db fs file n s = (Raise e, s1) →
             cache_data s1 = cache_data s
             ∧ cache_data s1 !! (file, n) = None
             ∧ (∀ n', n' ≠ n → store s1 !! n' = store s !! n')).
Proof.
  destruct (cache_data s !! (file, n)) as [m0|] eqn:Hc.
  - unfold DataInjection.load_csv_to_db at 1 3. rewrite Hc. split.
    + intros m s1 [= <- <-] fs'. unfold DataInjection.load_csv_to_db. by rewrite Hc.
    + intros e s1 [=].
  - rewrite di_load_miss by done.
    destruct (csv_content fs file) as [e0|df].
    { split; [intros m s1 [=] | by intros e s1 [= <- <-]]. }
    destruct (head (write_faults s)) as [[[k e0]|]|].
    + split; [intros m s1 [=] |]. intros e s1 [= <- <-].
      cbn [store cache_data log partly_written]. split; [done |]. split; [done |].
      intros n' Hn. apply (exec_stmts_frame n); [| done].
      apply Forall_take, to_sql_stmts_table.
    + split; [| intros e s1 [=]].
      intros m s1 [= <- <-] fs'. unfold DataInjection.load_csv_to_db.
      cbn [cache_data set_cache_data]. by rewrite lookup_insert_eq.
    + split; [| intros e s1 [=]].
      intros m s1 [= <- <-] fs'. unfold DataInjection.load_csv_to_db.
      cbn [cache_data set_cache_data]. by rewrite lookup_insert_eq.
Qed.

Lemma load_csv_to_db_memo_witness :
  (let s1 := (DataInjection.load_csv_to_db ex_fs "data/orders.csv" "orders"
                (initial_state ∅ [] [])).2 in
   DataInjection.load_csv_to_db ex_no_dir "data/orders.csv" "orders" s1
   = (Ok (Loaded "orders" 3), s1))
  ∧ (let s := initial_state {["orders" := df_orders]} [] [Some (1, ex_interrupted)] in
     let s1 := (DataInjection.load_csv_to_db ex_fs "data/Orders.csv" "orders" s).2 in
     cache_data s1 = cache_data s
     ∧ cache_data s1 !! ("data/Orders.csv", "orders") = None
     ∧ (∀ n', n' ≠ "orders" → store s1 !! n' = store s !! n')).
Proof.
  split.
  - intros s1.
    destruct (load_csv_to_db_memo ex_fs "data/orders.csv" "orders" (initial_state ∅ [] []))
      as [H _].
    apply H. vm_compute. reflexivity.
  - intros s s1.
    destruct (load_csv_to_db_memo ex_fs "data/Orders.csv" "orders" s) as [_ H].
    apply (H ex_interrupted). vm_compute. reflexivity.
Defined.

Lemma di_for_each_file_ok (fs : FileSystem) (l : list string) (fl fl' : list string)
    (s s' : State) :
  DataInjection.for_each_file fs l fl s = (Ok fl', s') →
  fl' = fl ++ map derive_table_name (candidates l).
Proof.
  revert fl s. induction l as [|f l IH]; intros fl s.
  - intros [= <- <-]. by rewrite app_nil_r.
  - cbn [DataInjection.for_each_file]. unfold bind at 1, DataInjection.process_file.
    rewrite candidates_cons. unfold is_candidate.
    destruct (endswith f ".csv").
    + fold (derive_table_name f). unfold bind at 1.
      destruct (DataInjection.load_csv_to_db fs _ _ s) as [[m|e] s1]; [| done].
      intros H%IH. by rewrite H, <- app_assoc.
    + apply IH.
Qed.

(** X9.  [data_injection.py] skips nothing: when its loop comes to its end,
    [files_loaded] holds the derived table name of every candidate of the
    listing, in order, so the warning that no CSV file was found is shown
    exactly when the listing has no candidate. *)
Theorem data_injection_loads_every_candidate (fs : FileSystem) (listing : list string)
    (s s' : State) :
  data_dir fs = Some listing →
  DataInjection.main fs s = (Ok tt, s') →
  ∃ s1, DataInjection.for_each_file fs listing [] s
        = (Ok (map derive_table_name (candidates listing)), s1)
        ∧ s' = match candidates listing with
               | [] => show NoCsvFilesFound s1
               | _ :: _ => s1
               end.
Proof.
  intros Hdir. unfold DataInjection.main, os_path_exists, os_listdir. rewrite Hdir.
  cbn [negb from_option id]. unfold bind.
  destruct (DataInjection.for_each_file fs listing [] s) as [[fl|e] s1] eqn:Hloop; [| done].
  apply di_for_each_file_ok in Hloop as Hfl. cbn [app] in Hfl. subst fl.
  exists s1. split; [done |].
  destruct (candidates listing); cbn [map] in *.
  - by injection H as <-.
  - by injection H as <-.
Qed.

Lemma data_injection_loads_every_candidate_witness :
  ∃ s1, DataInjection.for_each_file ex_fs ["orders.csv"; "notes.txt"; "Orders.csv"] []
          (initial_state {["orders" := df_orders]} [] [])
        = (Ok (map derive_table_name (candidates ["orders.csv"; "notes.txt"; "Orders.csv"])), s1)
        ∧ (DataInjection.main
             (mkFileSystem (Some ["orders.csv"; "notes.txt"; "Orders.csv"]) (csv_content ex_fs))
             (initial_state {["orders" := df_orders]} [] [])).2
          = match candidates ["orders.csv"; "notes.txt"; "Orders.csv"] with
            | [] => show NoCsvFilesFound s1
            | _ :: _ => s1
            end.
Proof.
  apply (data_injection_loads_every_candidate
           (mkFileSystem (Some ["orders.csv"; "notes.txt"; "Orders.csv"]) (csv_content ex_fs))
           ["orders.csv"; "notes.txt"; "Orders.csv"]
           (initial_state {["orders" := df_orders]} [] [])).
  - reflexivity.
  - vm_compute. reflexivity.
Defined.

(** * Navigation *)

Lemma list_index_Some (x : string) (l : list string) (i : nat) :
  list_index x l = Some i → l !! i = Some x.
Proof.
  revert i. induction l as [|y l IH]; intros i; [done |].
  cbn [list_index]. destruct (String.eqb y x) eqn:Heq.
  - intros [= <-]. apply String.eqb_eq in Heq. by subst.
  - destruct (list_index x l) as [j|]; [| done].
    intros [= <-]. by apply IH.
Qed.

Lemma list_index_None (x : string) (l : list string) :
  list_index x l = None ↔ x ∉ l.
Proof.
  induction l as [|y l IH]; [split; [intros _; apply not_elem_of_nil | done] |].
  cbn [list_index]. rewrite not_elem_of_cons. destruct (String.eqb y x) eqn:Heq.
  - apply String.eqb_eq in Heq. subst. split; [done | by intros [? _]].
  - apply String.eqb_neq in Heq.
    destruct (list_index x l) as [j|]; cbn.
    + split; [done |]. intros [_ Hn]. by apply IH in Hn.
    + split; [| done]. intros _. split; [congruence | by apply IH].
Qed.

(** X10.  Routing: for every option of the sidebar radio the script finds a
    page and stores the position of the option, and the radio of the next
    run, started from the stored position, shows that option again; two
    options never share a position or a page; a value that is not an option
    makes [index] raise before any page is looked up. *)
Theorem route_total_and_remembered (section : string) :
  (section ∈ sections →
   ∃ i page, route section = inr (i, page)
             ∧ page_map !! section = Some page
             ∧ radio_default (Some i) = Some section)
  ∧ (section ∉ sections → route section = inl (OtherException "ValueError"))
  ∧ (∀ other i page j page',
       route section = inr (i, page) → route other = inr (j, page') →
       i = j ∨ page = page' → section = other).
Proof.
  assert (∀ x, x ∈ sections →
               x = "Home" ∨ x = "a" ∨ x = "b" ∨ x = "c" ∨ x = "d" ∨ x = "e"
               ∨ x = "Insights") as Hcases.
  { intros x Hx. unfold sections in Hx. set_solver. }
  assert (∀ x i page, route x = inr (i, page) → x ∈ sections ∧ sections !! i = Some x)
    as Hroute.
  { intros x i page. unfold route.
    destruct (list_index x sections) as [k|] eqn:Hk; [| done].
    destruct (page_map !! x); [| done]. intros [= <- <-].
    apply list_index_Some in Hk. split; [by eapply list_elem_of_lookup_2 | done]. }
  split; [| split].
  - intros Hin. apply Hcases in Hin.
    destruct Hin as [-> | [-> | [-> | [-> | [-> | [-> | ->]]]]]];
      eexists _, _; (split; [vm_compute; reflexivity |]); split; vm_compute; reflexivity.
  - intros Hnot. unfold route. by apply list_index_None in Hnot as ->.
  - intros other i page j page' H1 H2 Heq.
    destruct (Hroute _ _ _ H1) as [Hin1 Hi1]. destruct (Hroute _ _ _ H2) as [Hin2 Hi2].
    destruct Heq as [-> | ->]; [congruence |].
    apply Hcases in Hin1, Hin2.
    destruct Hin1 as [-> | [-> | [-> | [-> | [-> | [-> | ->]]]]]];
      destruct Hin2 as [-> | [-> | [-> | [-> | [-> | [-> | ->]]]]]];
      try reflexivity; vm_compute in H1, H2; congruence.
Qed.

Lemma route_total_and_remembered_witness :
  (∃ i page, route "c" = inr (i, page)
             ∧ page_map !! "c" = Some page
             ∧ radio_default (Some i) = Some "c")
  ∧ route "f" = inl (OtherException "ValueError").
Proof.
  destruct (route_total_and_remembered "c") as (H1 & _ & _).
  destruct (route_total_and_remembered "f") as (_ & H2 & _).
  split; [apply H1 | apply H2].
  - apply (bool_decide_unpack _). vm_compute. exact I.
  - apply (bool_decide_unpack _). vm_compute. exact I.
Defined.

(** * The Home page: headings *)

Lemma rfind_from_app (c : ascii) (a t : string) (i acc : Z) :
  rfind_from c i acc (a +:+ t)
  = rfind_from c (i + Z.of_nat (String.length a)) (rfind_from c i acc a) t.
Proof.
  revert i acc. induction a as [|d a IH]; intros i acc.
  - rewrite str_app_nil. cbn [String.length rfind_from]. f_equal. lia.
  - rewrite str_app_cons. cbn [rfind_from String.length]. rewrite IH. f_equal. lia.
Qed.

Lemma rfind_from_absent (c : ascii) (s : string) (i acc : Z) :
  str_contains (String c EmptyString) s = false → rfind_from c i acc s = acc.
Proof.
  revert i acc. induction s as [|d s IH]; intros i acc; [done |].
  cbn [str_contains String.prefix rfind_from].
  intros [Hd Hs]%orb_false_iff.
  destruct (ascii_dec c d) as [-> | Hne].
  - by destruct s.
  - assert (Ascii.eqb d c = false) as -> by (apply Ascii.eqb_neq; congruence).
    by apply IH.
Qed.

Lemma has_non_dot_app (b t : string) :
  has_non_dot (String.length b) (b +:+ t) = has_non_dot (String.length b) b.
Proof.
  induction b as [|d b IH]; [by destruct t |].
  rewrite str_app_cons. cbn [String.length has_non_dot]. by rewrite IH.
Qed.

Lemma splitext_csv (b : string) :
  str_contains "/" (b +:+ ".csv") = false →
  splitext (b +:+ ".csv")
  = if has_non_dot (String.length b) b then (b, ".csv") else (b +:+ ".csv", EmptyString).
Proof.
  intros Hsep. unfold splitext.
  assert (rfind "/" (b +:+ ".csv") = (-1)%Z) as -> by by apply rfind_from_absent.
  assert (rfind "." (b +:+ ".csv") = Z.of_nat (String.length b)) as ->.
  { unfold rfind. rewrite rfind_from_app. cbn. lia. }
  assert ((-1 <? Z.of_nat (String.length b))%Z = true) as -> by (apply Z.ltb_lt; lia).
  replace (Z.to_nat (Z.of_nat (String.length b) - (-1 + 1))) with (String.length b) by lia.
  replace (Z.to_nat (-1 + 1)) with 0%nat by lia.
  rewrite Nat2Z.id.
  assert (str_drop 0 (b +:+ ".csv") = b +:+ ".csv") as -> by by destruct (b +:+ ".csv").
  rewrite has_non_dot_app, str_take_app, str_drop_app. done.
Qed.

(** X11.  The heading of a file on the Home page and its table: for a
    candidate whose name has no slash, [splitext] cuts the final [".csv"] off
    when the part before it has a character that is not a dot, and then,
    [".csv"] not occurring in that part, the heading lower-cased is the
    derived table name; when the part before is empty or all dots,
    [splitext] cuts nothing off and the heading is the whole file name. *)
Theorem home_heading_is_table_name (base : string) :
  str_contains "/" (base +:+ ".csv") = false →
  (has_non_dot (String.length base) base = true →
   home_heading (base +:+ ".csv") = base
   ∧ (str_contains ".csv" base = false →
      lower (home_heading (base +:+ ".csv")) = derive_table_name (base +:+ ".csv")))
  ∧ (has_non_dot (String.length base) base = false →
     home_heading (base +:+ ".csv") = base +:+ ".csv").
Proof.
  intros Hsep. unfold home_heading. rewrite splitext_csv by done. split.
  - intros ->. split; [done |]. intros Hb. cbn [fst].
    unfold derive_table_name. by rewrite replace_csv_suffix.
  - by intros ->.
Qed.

Lemma home_heading_is_table_name_witness :
  home_heading ("Orders" +:+ ".csv") = "Orders"
  ∧ lower (home_heading ("Orders" +:+ ".csv")) = derive_table_name ("Orders" +:+ ".csv")
  ∧ home_heading (".." +:+ ".csv") = ".." +:+ ".csv".
Proof.
  destruct (home_heading_is_table_name "Orders") as [H1 _]; [reflexivity |].
  destruct (home_heading_is_table_name "..") as [_ H2]; [reflexivity |].
  destruct H1 as [H1 H1']; [reflexivity |].
  split; [exact H1 |]. split; [apply H1'; reflexivity | apply H2; reflexivity].
Defined.

(** * Section c: the chart of last actions *)

Lemma value_counts_lookup (df : list SellerRow) (a : string) :
  default 0%nat (value_counts df !! a)
  = List.length (List.filter (λ r, String.eqb (last_action r) a) df).
Proof.
  induction df as [|r df IH]; [done |].
  cbn [value_counts List.filter]. destruct (String.eqb (last_action r) a) eqn:Heq.
  - apply String.eqb_eq in Heq. subst a. rewrite lookup_insert_eq. cbn. by rewrite IH.
  - apply String.eqb_neq in Heq. by rewrite lookup_insert_ne.
Qed.

Lemma filter_partition_length {A} (p q : A → bool) (l : list A) :
  (∀ x, q x = negb (p x)) →
  List.length (List.filter p l) + List.length (List.filter q l) = List.length l.
Proof.
  intros Hq. induction l as [|x l IH]; [done |].
  cbn [List.filter]. rewrite Hq. destruct (p x); cbn; lia.
Qed.

Lemma filter_filter_comm {A} (p q : A → bool) (l : list A) :
  List.filter p (List.filter q l) = List.filter q (List.filter p l).
Proof.
  induction l as [|x l IH]; [done |].
  cbn [List.filter]. destruct (q x) eqn:Hq, (p x) eqn:Hp; cbn [List.filter];
    rewrite ?Hq, ?Hp, IH; done.
Qed.

(** X12.  The filter of the last chart of section c: the views "Sold At
    Least Once" and "No Sales" split the sellers of "All" in two, the first
    holding exactly the rows with a last sale and the second the rows
    without; the row counts of the two add up to that of "All", and so do,
    for every action, the two bars of that action; any other value of the
    filter shows all rows. *)
Theorem sale_filter_partitions (df_c : list SellerRow) :
  filter_by_sale "All" df_c = df_c
  ∧ (∀ r, r ∈ filter_by_sale "Sold At Least Once" df_c
          ↔ r ∈ df_c ∧ is_Some (last_sale_ts r))
  ∧ (∀ r, r ∈ filter_by_sale "No Sales" df_c ↔ r ∈ df_c ∧ last_sale_ts r = None)
  ∧ List.length (filter_by_sale "Sold At Least Once" df_c)
    + List.length (filter_by_sale "No Sales" df_c) = List.length df_c
  ∧ (∀ a, default 0%nat (value_counts (filter_by_sale "Sold At Least Once" df_c) !! a)
          + default 0%nat (value_counts (filter_by_sale "No Sales" df_c) !! a)
          = default 0%nat (value_counts (filter_by_sale "All" df_c) !! a))
  ∧ (∀ other, other ≠ "Sold At Least Once" → other ≠ "No Sales" →
              filter_by_sale other df_c = df_c).
Proof.
  assert (∀ r, Bool.eqb (has_sold r) false = negb (Bool.eqb (has_sold r) true)) as Hneg.
  { intros r. by destruct (has_sold r). }
  change (filter_by_sale "All" df_c) with df_c.
  change (filter_by_sale "Sold At Least Once" df_c)
    with (List.filter (λ r, Bool.eqb (has_sold r) true) df_c).
  change (filter_by_sale "No Sales" df_c)
    with (List.filter (λ r, Bool.eqb (has_sold r) false) df_c).
  split; [done |]. split; [| split; [| split; [| split]]].
  - intros r. rewrite list_elem_of_In, List.filter_In, <- list_elem_of_In.
    unfold has_sold. destruct (last_sale_ts r); cbn; split; intros [? ?]; split;
      try done; by eexists.
  - intros r. rewrite list_elem_of_In, List.filter_In, <- list_elem_of_In.
    unfold has_sold. destruct (last_sale_ts r); cbn; split; intros [? ?]; split; done.
  - by apply filter_partition_length.
  - intros a. rewrite !value_counts_lookup.
    rewrite (filter_filter_comm _ (λ r, Bool.eqb (has_sold r) true)).
    rewrite (filter_filter_comm _ (λ r, Bool.eqb (has_sold r) false)).
    by apply filter_partition_length.
  - intros other H1 H2. unfold filter_by_sale.
    apply String.eqb_neq in H1, H2. by rewrite H1, H2.
Qed.

Lemma sale_filter_partitions_witness :
  let df_c := [mkSellerRow "s1" (Some 1700000000%Z) "tap back button";
               mkSellerRow "s2" None "tap back button";
               mkSellerRow "s3" None "delete draft"] in
  filter_by_sale "Sold At Least Once" df_c = [mkSellerRow "s1" (Some 1700000000%Z) "tap back button"]
  ∧ filter_by_sale "Homepage" df_c = df_c
  ∧ default 0%nat (value_counts (filter_by_sale "Sold At Least Once" df_c) !! "tap back button")
    + default 0%nat (value_counts (filter_by_sale "No Sales" df_c) !! "tap back button")
    = default 0%nat (value_counts (filter_by_sale "All" df_c) !! "tap back button").
Proof.
  intros df_c.
  destruct (sale_filter_partitions df_c) as (_ & _ & _ & _ & H5 & H6).
  split; [vm_compute; reflexivity |]. split; [apply H6; discriminate | apply H5].
Defined.

(** * Reruns and the order of the report *)

Lemma ingestion_body_setup_ok (env : Env) (fs : FileSystem) (s : State) (url : string) :
  conn_ok s →
  secrets env !! "DB_URL" = Some url →
  engine_error env url = None →
  ingestion_body env fs s
  = ingest_all fs (after_inspect (set_session
      (mkSession (ss_data_loaded (session_state s)) (ss_files_loaded (session_state s))
                 (Some url)) s)).
Proof.
  intros Hok Hurl Heng. unfold ingestion_body, st_secrets, create_engine. rewrite Hurl.
  unfold bind, ret, modify. rewrite Heng. by rewrite inspect_ok.
Qed.

(** X13.  Every run of the ingestion block takes a new snapshot: entered
    with [data_loaded] unset, whatever an inspector of an earlier attempt
    remembered, the block decides each candidate against the tables the
    database holds now; a candidate whose table is there, for instance
    because an earlier attempt of the session loaded it before failing, is
    reported [Skipped] and its table left as it is. *)
Theorem rerun_takes_new_snapshot (env : Env) (fs : FileSystem) (listing : list string)
    (s : State) (url : string) (i : nat) (f : string) :
  ss_data_loaded (session_state s) = None →
  conn_ok s →
  secrets env !! "DB_URL" = Some url →
  engine_error env url = None →
  data_dir fs = Some listing →
  candidates listing !! i = Some f →
  is_Some (store s !! derive_table_name f) →
  ∃ lines,
    shown (app_script env fs s).2 = shown s ++ lines
    ∧ Forall2 (entry_ok fs (table_names (store s))) (candidates listing) lines
    ∧ lines !! i = Some (Skipped (derive_table_name f))
    ∧ store (app_script env fs s).2 !! derive_table_name f
      = store s !! derive_table_name f.
Proof.
  intros Hnone Hok Hurl Heng Hdir Hf Hin.
  unfold app_script. rewrite Hnone. unfold ingestion_block, try_except.
  rewrite (ingestion_body_setup_ok env fs s url) by done.
  set (s0 := after_inspect _).
  destruct (ingest_all_steps fs listing s0) as (t & lines & Hsteps & ->); [| done |].
  { apply conn_ok_after_inspect. exact Hok. }
  pose proof (steps_lines _ _ _ _ _ Hsteps) as Hlines.
  pose proof (steps_shown _ _ _ _ _ Hsteps) as Hshown.
  exists lines. cbn [snd]. state_simpl. rewrite Hshown.
  split; [done |]. split; [exact Hlines |]. split.
  - destruct (Forall2_lookup_l _ _ _ _ _ Hlines Hf) as (m & -> & Hm).
    unfold entry_ok in Hm. rewrite bool_decide_eq_true_2 in Hm; [by subst |].
    by apply table_names_elem.
  - apply (steps_store_snapshot _ _ _ _ _ _ Hsteps). by apply table_names_elem.
Qed.

Lemma rerun_takes_new_snapshot_witness :
  let s := set_info_cache (Some []) (initial_state {["orders" := df_orders]} [] []) in
  ∃ lines,
    shown (app_script ex_env ex_fs s).2 = shown s ++ lines
    ∧ Forall2 (entry_ok ex_fs (table_names (store s)))
        (candidates ["orders.csv"; "notes.txt"; "Orders.csv"; "broken.csv"]) lines
    ∧ lines !! 1%nat = Some (Skipped (derive_table_name "Orders.csv"))
    ∧ store (app_script ex_env ex_fs s).2 !! derive_table_name "Orders.csv"
      = store s !! derive_table_name "Orders.csv".
Proof.
  intros s.
  apply (rerun_takes_new_snapshot ex_env ex_fs
           ["orders.csv"; "notes.txt"; "Orders.csv"; "broken.csv"] s
           "postgresql://host/db" 1%nat "Orders.csv").
  - reflexivity.
  - constructor.
  - vm_compute. reflexivity.
  - reflexivity.
  - reflexivity.
  - vm_compute. reflexivity.
  - exists df_orders. vm_compute. reflexivity.
Defined.

Lemma entry_ok_line_about fs names f m : entry_ok fs names f m → line_about f m.
Proof.
  unfold entry_ok, line_about. case_bool_decide; [by left |].
  destruct (csv_content _ _).
  - intros ->. right. right. by eexists.
  - intros [-> | [e ->]]; right; [left | right]; by eexists.
Qed.

(** X14.  The report follows the listing: whatever tables the database
    holds and whichever writes it refuses, a run shows one line per
    candidate, the line at each place being about the candidate at that
    place of the listing; so the reports of two runs over the same directory
    have the same length and pair up file by file. *)
Theorem report_follows_listing (fs : FileSystem) (listing : list string)
    (db1 db2 : gmap string DataFrame) (wf1 wf2 : list (option (nat * Exception))) :
  data_dir fs = Some listing →
  let r1 := load_report (shown (run_ingest fs (initial_state db1 [] wf1)).2) in
  let r2 := load_report (shown (run_ingest fs (initial_state db2 [] wf2)).2) in
  Forall2 line_about (candidates listing) r1
  ∧ Forall2 line_about (candidates listing) r2
  ∧ List.length r1 = List.length r2
  ∧ (∀ i m1 m2, r1 !! i = Some m1 → r2 !! i = Some m2 →
                ∃ f, candidates listing !! i = Some f ∧ line_about f m1 ∧ line_about f m2).
Proof.
  intros Hdir r1 r2.
  destruct (run_ingest_initial fs listing db1 wf1 Hdir) as (t1 & l1 & _ & _ & _ & H1 & Hl1).
  destruct (run_ingest_initial fs listing db2 wf2 Hdir) as (t2 & l2 & _ & _ & _ & H2 & Hl2).
  subst r1 r2. rewrite H1, H2.
  assert (Forall2 line_about (candidates listing) l1) as Ha1.
  { eapply Forall2_impl; [exact Hl1 |]. intros f m. apply entry_ok_line_about. }
  assert (Forall2 line_about (candidates listing) l2) as Ha2.
  { eapply Forall2_impl; [exact Hl2 |]. intros f m. apply entry_ok_line_about. }
  split; [done |]. split; [done |]. split.
  - by rewrite <- (Forall2_length _ _ _ Ha1), <- (Forall2_length _ _ _ Ha2).
  - intros i m1 m2 Hi1 Hi2.
    destruct (Forall2_lookup_r _ _ _ _ _ Ha1 Hi1) as (f & Hf & Hm1).
    destruct (Forall2_lookup_r _ _ _ _ _ Ha2 Hi2) as (f' & Hf' & Hm2).
    exists f. split; [done |]. split; [done |]. congruence.
Qed.

Lemma report_follows_listing_witness :
  let r1 := load_report (shown (run_ingest ex_fs (initial_state ∅ [] [])).2) in
  let r2 := load_report (shown (run_ingest ex_fs
              (initial_state {["orders" := df_orders]} [] [Some (0, ex_interrupted)])).2) in
  Forall2 line_about (candidates ["orders.csv"; "notes.txt"; "Orders.csv"; "broken.csv"]) r1
  ∧ Forall2 line_about (candidates ["orders.csv"; "notes.txt"; "Orders.csv"; "broken.csv"]) r2
  ∧ List.length r1 = List.length r2
  ∧ (∀ i m1 m2, r1 !! i = Some m1 → r2 !! i = Some m2 →
                ∃ f, candidates ["orders.csv"; "notes.txt"; "Orders.csv"; "broken.csv"] !! i
                     = Some f ∧ line_about f m1 ∧ line_about f m2).
Proof.
  apply (report_follows_listing ex_fs ["orders.csv"; "notes.txt"; "Orders.csv"; "broken.csv"]).
  reflexivity.
Defined.

Lemma files_loaded_lists_loaded_tables_witness :
  let s' := (run_ingest ex_fs (initial_state ∅ [] [None; Some (0, ex_interrupted)])).2 in
  ss_data_loaded (session_state s') = Some true
  ∧ ss_files_loaded (session_state s') = Some (loaded_names (load_report (shown s')))
  ∧ (∀ n, n ∈ loaded_names (load_report (shown s')) →
          (∅ : gmap string DataFrame) !! n = None ∧ is_Some (store s' !! n)).
Proof.
  apply (files_loaded_lists_loaded_tables ex_fs
           ["orders.csv"; "notes.txt"; "Orders.csv"; "broken.csv"]).
  reflexivity.
Defined.

(** * The Home page: the clicks file *)

Lemma str_app_inv_prefix (a b x : string) :
  a +:+ x = b +:+ x → a = b.
Proof.
  revert b. induction a as [|c a IH]; intros b Heq.
  - destruct b as [|d b]; [done |].
    apply (f_equal String.length) in Heq. rewrite str_app_nil, str_length_app in Heq.
    cbn in Heq. lia.
  - destruct b as [|d b].
    + apply (f_equal String.length) in Heq. rewrite str_app_nil, str_length_app in Heq.
      cbn in Heq. lia.
    + rewrite !str_app_cons in Heq. injection Heq as -> Heq. f_equal. by apply IH.
Qed.

Lemma ascii_lower_dot (c : ascii) : c = "."%char → ascii_lower c = "."%char.
Proof. by intros ->. Qed.

(** A name that lower-cases to ["clicks"] has no dot, so [".csv"] does not
    occur in it. *)
Lemma lower_clicks_no_csv (b : string) :
  lower b = "clicks" → str_contains ".csv" b = false.
Proof.
  destruct b as [|c1 [|c2 [|c3 [|c4 [|c5 [|c6 [|c7 b]]]]]]]; try discriminate.
  cbn [lower]. intros [= H1 H2 H3 H4 H5 H6].
  cbn [str_contains String.prefix].
  repeat match goal with
         | |- context [ascii_dec "."%char ?c] =>
             destruct (ascii_dec "."%char c) as [<- | _];
               [vm_compute in H1, H2, H3, H4, H5, H6; discriminate |]
         end.
  reflexivity.
Qed.

(** X15.  The clicks view of the Home page and the table [clicks]: a
    candidate for which the Home page shows the distinct event values, its
    name being ["clicks.csv"] in whatever case, is a file the ingestion loads
    into the table ["clicks"]; and a candidate that derives ["clicks"] and
    has [".csv"] only as its ending gets that view. *)
Theorem clicks_view_is_clicks_table (filename : string) :
  is_candidate filename = true →
  (is_clicks_file filename = true → derive_table_name filename = "clicks")
  ∧ (∀ base, filename = base +:+ ".csv" → str_contains ".csv" base = false →
             derive_table_name filename = "clicks" → is_clicks_file filename = true).
Proof.
  intros [b ->]%endswith_spec. split.
  - unfold is_clicks_file. intros Heq%String.eqb_eq.
    rewrite lower_app in Heq.
    change (lower ".csv") with ".csv" in Heq.
    change "clicks.csv" with ("clicks" +:+ ".csv") in Heq.
    apply str_app_inv_prefix in Heq.
    unfold derive_table_name. by rewrite replace_csv_suffix by by apply lower_clicks_no_csv.
  - intros base Hbase Hno. apply str_app_inv_prefix in Hbase as <-.
    unfold derive_table_name, is_clicks_file. rewrite replace_csv_suffix by done.
    intros Hl. rewrite lower_app, Hl. reflexivity.
Qed.

Lemma clicks_view_is_clicks_table_witness :
  derive_table_name "Clicks.csv" = "clicks"
  ∧ is_clicks_file "CLICKS.csv" = true.
Proof.
  destruct (clicks_view_is_clicks_table "Clicks.csv") as [H1 _]; [reflexivity |].
  destruct (clicks_view_is_clicks_table "CLICKS.csv") as [_ H2]; [reflexivity |].
  split; [apply H1; reflexivity |].
  apply (H2 "CLICKS"); reflexivity.
Defined.
